(** * Category API: a shallow embedding of the category model and controller

    The development follows two source files:
    - [src/models/category.model.js]: the Mongoose schema of a category, its
      [pre("save")] hook (slug generation with uniqueness) and the [children]
      virtual;
    - the category controller: [populateChildrenRecursively] and the request
      handlers ([getCategory], [createCategory], [updateCategory], ...).

    The document store is a list of category documents in natural (insertion)
    order.  Handlers are computations in a small monad that threads the store
    and a chronological trace of the outward calls (persistence writes and
    media-store deletions). *)

From Stdlib Require Import Ascii.
From stdpp Require Import base decidable option list relations strings pretty.

(** ** Documents *)

(** An ObjectId; only equality of identifiers matters. *)
Definition ObjectId := nat.

(** [imageSchema].  [img_id] is what the controller reads as [img.id]: the
    identifier handed to the media store on deletion, possibly absent.
    ([width] and [height] are never read or written by the controller.) *)
Record Image := mkImage {
  img_url : string;
  img_altText : string;
  img_type : string;
  img_id : option string
}.

(** [categorySchema].  The paths [description], [metaTitle],
    [metaDescription], [active], [popularityScore], [ancestors], [updatedBy]
    and the timestamps are carried through unchanged by every operation and are
    left out. *)
Record Category := mkCategory {
  _id : ObjectId;
  name : string;
  slug : option string;
  type : string;
  parent : option ObjectId;
  images : list Image;
  createdBy : ObjectId
}.

(** The referenced [User] collection, reduced to what [populate] selects. *)
Record User := mkUser {
  user_id : ObjectId;
  user_name : string;
  user_email : string
}.

Global Instance Image_eq_dec : EqDecision Image.
Proof. solve_decision. Defined.
Global Instance Category_eq_dec : EqDecision Category.
Proof. solve_decision. Defined.
Global Instance User_eq_dec : EqDecision User.
Proof. solve_decision. Defined.

Definition imageTypes : list string := ["thumbnail"; "banner"; "mobile"; "gallery"].
Definition categoryTypes : list string := ["mega"; "normal"].

(** ** Requests *)

(** An uploaded file as the upload middleware leaves it in [req.files]. *)
Record File := mkFile {
  path : string;
  fieldname : string
}.

(** [req.body]: every field may be absent.  [b_parent] distinguishes an absent
    field ([None]) from an explicit [null] ([Some None]). *)
Record Body := mkBody {
  b_name : option string;
  b_slug : option string;
  b_type : option string;
  b_parent : option (option ObjectId);
  b_images : option (list Image);
  b_altText : option string;
  b_createdBy : option ObjectId
}.

(** [req.query] of the listing handlers. *)
Record Query := mkQuery {
  q_type : option string;
  q_parentId : option ObjectId;
  q_sort : option string;
  q_fields : option string;
  q_page : option nat;
  q_limit : option nat
}.

Record Request := mkRequest {
  params_id : ObjectId;
  params_slug : string;
  params_parentId : ObjectId;
  body : Body;
  files : option (list File);
  user : ObjectId;
  query : Query
}.

(** ** The name-to-slug transformation *)

Definition lower (c : ascii) : ascii :=
  let n := nat_of_ascii c in
  if decide (65 ≤ n ≤ 90) then ascii_of_nat (n + 32) else c.

Definition alnum (c : ascii) : bool :=
  let n := nat_of_ascii c in
  bool_decide (48 ≤ n ≤ 57 ∨ 97 ≤ n ≤ 122).

(** Drops leading hyphens and squeezes every later run of hyphens to one. *)
Fixpoint squeeze (start : bool) (l : list ascii) : list ascii :=
  match l with
  | [] => []
  | c :: l' =>
    if decide (c = "-"%char)
    then (if start then squeeze true l' else
            match squeeze true l' with
            | [] => []
            | r => "-"%char :: r
            end)
    else c :: squeeze false l'
  end.

(** Modelled from the spec: [createSlug] of [utils/slug.js], whose code is not
    among the files embedded here.  "lower-casing, whitespace/punctuation →
    hyphens, trimming".  The hook and the controller are embedded over an
    arbitrary [createSlug]; this instance serves the concrete runs. *)
Definition slugify (s : string) : string :=
  String.string_of_list_ascii
    (squeeze true
       (map (λ c, let c' := lower c in if alnum c' then c' else "-"%char)
            (String.list_ascii_of_string s))).

(** The white space of [String.prototype.trim] (WhiteSpace and
    LineTerminator of the language), on strings held as UTF-8 bytes: the six
    ASCII characters, U+00A0 in two bytes, and in three bytes U+1680,
    U+2000 to U+200A, U+2028, U+2029, U+202F, U+205F, U+3000 and U+FEFF. *)
Definition space1 (a : ascii) : bool := Ascii.is_space a.

Definition space2 (a b : ascii) : bool :=
  bool_decide (nat_of_ascii a = 194 ∧ nat_of_ascii b = 160).

Definition space3 (a b c : ascii) : bool :=
  let '(x, y, z) := (nat_of_ascii a, nat_of_ascii b, nat_of_ascii c) in
  bool_decide
    ((x = 225 ∧ y = 154 ∧ z = 128)
     ∨ (x = 226 ∧ y = 128 ∧ (128 ≤ z ≤ 138 ∨ z = 168 ∨ z = 169 ∨ z = 175))
     ∨ (x = 226 ∧ y = 129 ∧ z = 159)
     ∨ (x = 227 ∧ y = 128 ∧ z = 128)
     ∨ (x = 239 ∧ y = 187 ∧ z = 191)).

(** Removes the white space a byte sequence starts with; with [back] the
    sequence is read from its end, so the bytes of a character come last
    byte first. *)
Fixpoint trimFrom (back : bool) (l : list ascii) : list ascii :=
  match l with
  | a :: l1 =>
    if space1 a then trimFrom back l1 else
    match l1 with
    | b :: l2 =>
      if (if back then space2 b a else space2 a b) then trimFrom back l2 else
      match l2 with
      | c :: l3 =>
        if (if back then space3 c b a else space3 a b c) then trimFrom back l3
        else l
      | [] => l
      end
    | [] => l
    end
  | [] => []
  end.

Definition trimStart (l : list ascii) : list ascii := trimFrom false l.

(** The schema's [trim: true] setter on [name]: [String.prototype.trim],
    white space removed at both ends. *)
Definition trim (s : string) : string :=
  String.string_of_list_ascii
    (reverse (trimFrom true (reverse (trimStart (String.list_ascii_of_string s))))).

(** JavaScript truthiness of a string-or-undefined value. *)
Definition truthy (v : option string) : bool :=
  match v with
  | Some s => bool_decide (s ≠ "")
  | None => false
  end.

(** ** Replies *)

(** [new AppError(message, statusCode)]. *)
Record AppError := mkAppError {
  message : string;
  statusCode : nat
}.

(** What the persistence layer rejects a write with. *)
Inductive MongoError := ValidationError | DuplicateKey.

(** A document with expanded relations: [createdBy] replaced by the user
    ([None] is JavaScript's [null], no such user) and the [children] virtual,
    which is [None] (undefined) until it has been populated. *)
#[warnings="-register-all"]
Inductive Node :=
  mkNode (doc : Category) (creator : option User) (children : option (list Node)).

Definition n_doc (n : Node) : Category := let 'mkNode d _ _ := n in d.
Definition n_createdBy (n : Node) : option User := let 'mkNode _ u _ := n in u.
Definition n_children (n : Node) : option (list Node) := let 'mkNode _ _ k := n in k.

(** A listed subcategory: the document with [createdBy] and [parent]
    populated ([None] where the referenced document does not exist). *)
Record Listed := mkListed {
  l_doc : Category;
  l_createdBy : option User;
  l_parent : option Category
}.

Record Pagination := mkPagination {
  pg_total : nat;
  pg_page : nat;
  pg_limit : nat
}.

Inductive Payload :=
| p_categories (l : list Node)
| p_category_tree (n : Node)
| p_category (c : option Category)
| p_subCategory (c : option Category)
| p_subCategories (l : list Listed) (pagination : Pagination)
| p_null.

Inductive Reply :=
| Response (status : nat) (msg : string) (data : Payload)
| NextError (err : AppError)
| NextThrown (err : MongoError).

(** Modelled from the spec: [successResponse] of [utils/successResponse.js],
    whose code is not among the files embedded here.  "HTTP status 201 for
    creation, 204 for deletion, 200 otherwise": the status argument defaults
    to 200. *)
Definition successResponse (data : Payload) (msg : string) (status : option nat) : Reply :=
  Response (default 200 status) msg data.

(** ** The world a handler runs in *)

(** Outward calls, recorded in the order they are issued. *)
Inductive Call :=
| cloudinary_destroy (publicId : string)
| Category_create (b : Body)
| Category_findByIdAndUpdate (id : ObjectId) (b : Body)
| Category_findByIdAndDelete (id : ObjectId).

Record World := mkWorld {
  categories : list Category;
  users : list User;
  calls : list Call
}.

(** The result of awaiting: a value, a rejection, or no answer within the
    given number of loop iterations. *)
Inductive Outcome (A : Type) :=
| Returned (a : A)
| Rejected (e : MongoError)
| OutOfFuel.
Arguments Returned {A} a.
Arguments Rejected {A} e.
Arguments OutOfFuel {A}.

Definition Async (A : Type) : Type := World → Outcome A * World.

Global Instance Async_ret : MRet Async := λ A a w, (Returned a, w).
Global Instance Async_bind : MBind Async := λ A B k m w,
  match m w with
  | (Returned a, w') => k a w'
  | (Rejected e, w') => (Rejected e, w')
  | (OutOfFuel, w') => (OutOfFuel, w')
  end.

Definition reads {A} (f : World → A) : Async A := λ w, (Returned (f w), w).
Definition reject {A} (e : MongoError) : Async A := λ w, (Rejected e, w).
Definition record (c : Call) : Async unit := λ w,
  (Returned (), mkWorld (categories w) (users w) (calls w ++ [c])).
Definition writes (st : list Category) : Async unit := λ w,
  (Returned (), mkWorld st (users w) (calls w)).

(** [catchAsync]: a rejection inside the handler is handed to [next]. *)
Definition catchAsync (h : Async Reply) : Async Reply := λ w,
  match h w with
  | (Rejected e, w') => (Returned (NextThrown e), w')
  | r => r
  end.

(** [for (const x of xs) await f(x)]. *)
Fixpoint forOf {A} (xs : list A) (f : A → Async unit) : Async unit :=
  match xs with
  | [] => mret ()
  | x :: xs' => f x ≫= λ _, forOf xs' f
  end.

(** ** The persistence layer (the Category model) *)

(** A query filter on the two paths the controller filters by; an absent
    condition is [None], the condition [parent: null] is [Some None]. *)
Record Filter := mkFilter {
  f_parent : option (option ObjectId);
  f_type : option string
}.

Definition matches (f : Filter) (c : Category) : bool :=
  from_option (λ p, bool_decide (parent c = p)) true (f_parent f)
  && from_option (λ t, bool_decide (type c = t)) true (f_type f).

Definition find (f : Filter) (st : list Category) : list Category :=
  filter (λ c, matches f c = true) st.

Definition countDocuments (f : Filter) (st : list Category) : nat :=
  length (find f st).

Definition findOne_slug (s : string) (st : list Category) : option Category :=
  head (filter (λ c, slug c = Some s) st).

Definition findById (id : ObjectId) (st : list Category) : option Category :=
  head (filter (λ c, _id c = id) st).

Definition findUser (id : ObjectId) (us : list User) : option User :=
  head (filter (λ u, user_id u = id) us).

(** The [children] virtual: [localField: "_id"], [foreignField: "parent"]. *)
Definition childrenOf (st : list Category) (c : Category) : list Category :=
  filter (λ d, parent d = Some (_id c)) st.

Definition validImage (i : Image) : bool :=
  bool_decide (img_url i ≠ "") && bool_decide (img_type i ∈ imageTypes).

(** Identifier of a new document: not in use yet. *)
Definition freshId (st : list Category) : ObjectId :=
  S (max_list (_id <$> st)).

(** The [_id] an image subdocument gets when it is stored without one, as
    [img.id] renders it.  A stand-in for a newly generated ObjectId, told
    apart by the owning document and the position of the image: what the
    controller relies on is that it is a non-empty string. *)
Definition imageId (owner : ObjectId) (k : nat) : string :=
  "image-" +:+ pretty owner +:+ "-" +:+ pretty k.

(** Casting to [imageSchema]: an image that carries an identifier keeps it,
    any other gets one. *)
Definition castImage (owner : ObjectId) (k : nat) (img : Image) : Image :=
  if truthy (img_id img) then img
  else {| img_url := img_url img; img_altText := img_altText img;
          img_type := img_type img; img_id := Some (imageId owner k) |}.

Definition castImages (owner : ObjectId) (imgs : list Image) : list Image :=
  imap (castImage owner) imgs.

(** [new Category(body)]: setters and defaults applied.  [None] when a
    required path ([name], [createdBy]) is missing. *)
Definition newDocument (oid : ObjectId) (b : Body) : option Category :=
  n ← b_name b;
  u ← b_createdBy b;
  Some {| _id := oid; name := trim n; slug := b_slug b;
          type := default "normal" (b_type b);
          parent := default None (b_parent b);
          images := castImages oid (default [] (b_images b));
          createdBy := u |}.

(** Schema validation of a whole document: required strings are non-empty,
    enumerated paths take one of their values (the identifier of an image
    has no validator). *)
Definition validate (c : Category) : bool :=
  bool_decide (name c ≠ "")
  && bool_decide (type c ∈ categoryTypes)
  && forallb validImage (images c).

(** [runValidators: true]: the same validators, on the paths the update
    sets. *)
Definition validateUpdate (b : Body) : bool :=
  from_option (λ n, bool_decide (trim n ≠ "")) true (b_name b)
  && from_option (λ t, bool_decide (t ∈ categoryTypes)) true (b_type b)
  && from_option (forallb validImage) true (b_images b).

(** The update document applied to a stored document: the paths present in
    the body are set, every other path is kept. *)
Definition applyUpdate (b : Body) (old : Category) : Category :=
  {| _id := _id old;
     name := from_option trim (name old) (b_name b);
     slug := from_option Some (slug old) (b_slug b);
     type := default (type old) (b_type b);
     parent := default (parent old) (b_parent b);
     images := from_option (castImages (_id old)) (images old) (b_images b);
     createdBy := default (createdBy old) (b_createdBy b) |}.

Fixpoint replaceFirst (id : ObjectId) (new : Category) (st : list Category) : list Category :=
  match st with
  | [] => []
  | c :: st' => if decide (_id c = id) then new :: st' else c :: replaceFirst id new st'
  end.

Fixpoint deleteFirst (id : ObjectId) (st : list Category) : list Category :=
  match st with
  | [] => []
  | c :: st' => if decide (_id c = id) then st' else c :: deleteFirst id st'
  end.

(** The unique indexes on [name] and [slug], checked on insertion. *)
Definition duplicateKey (c : Category) (st : list Category) : bool :=
  existsb (λ d, bool_decide (name d = name c) || bool_decide (slug d = slug c)) st.

(** The same indexes on update: only the keys the update sets are checked,
    against the other documents. *)
Definition duplicateKeyUpdate (b : Body) (new : Category) (st : list Category) : bool :=
  existsb (λ d, bool_decide (_id d ≠ _id new)
                && ((bool_decide (is_Some (b_name b)) && bool_decide (name d = name new))
                    || (bool_decide (is_Some (b_slug b)) && bool_decide (slug d = slug new)))) st.

(** ** Pagination helper *)

(** Modelled from the spec: [APIFeatures] of [utils/apiFeatures.js], whose
    code is not among the files embedded here.  "sorting, field projection, and
    page-based pagination computed against a precomputed total count".
    Sorting reorders the result of the query, pagination keeps a part of it
    and reports the total it was given; field projection selects which fields
    of a document are serialised, not which documents, and is not modelled. *)
Class APIFeatures := {
  sort : Query → list Listed → list Listed;
  paginate : Query → nat → list Listed → list Listed;
  pagination : Query → nat → Pagination;
  sort_Permutation q l : sort q l ≡ₚ l;
  paginate_sublist q t l : paginate q t l `sublist_of` l;
  pagination_total q t : pg_total (pagination q t) = t
}.

(** One such helper: natural order, pages of [limit] documents (ten when the
    query has no [limit]), counted from page 1. *)
Definition pageOf (q : Query) : nat := default 1 (q_page q).
Definition limitOf (q : Query) : nat := default 10 (q_limit q).

Program Definition skipLimit : APIFeatures := {|
  sort q l := l;
  paginate q t l := take (limitOf q) (drop ((pageOf q - 1) * limitOf q) l);
  pagination q t := mkPagination t (pageOf q) (limitOf q)
|}.
Next Obligation. done. Qed.
Next Obligation.
  intros q t l; simpl. etrans; [apply sublist_take | apply sublist_drop].
Qed.
Next Obligation. done. Qed.

(** ** The model's hook and the controller *)

Section Controller.

Variable createSlug : string → string.
Context {features : APIFeatures}.

(** The [while (slugExists)] loop of the [pre("save")] hook, in the state
    ([slug], [slugExists], [count]); [fuel] bounds the number of times the
    loop body runs.  The template literal renders [count] in decimal. *)
Fixpoint whileSlugExists (fuel : nat) (st : list Category) (name : string)
    (slug : string) (slugExists : option Category) (count : nat) : option string :=
  match slugExists with
  | None => Some slug
  | Some _ =>
    match fuel with
    | 0 => None
    | S fuel' =>
      let slug' := createSlug name +:+ "-" +:+ pretty count in
      whileSlugExists fuel' st name slug' (findOne_slug slug' st) (S count)
    end
  end.

(** [categorySchema.pre("save")]: slug generation with uniqueness. *)
Definition preSave (fuel : nat) (st : list Category) (isModified_name : bool)
    (this : Category) : option Category :=
  if isModified_name then
    let slug0 := createSlug (name this) in
    slug' ← whileSlugExists fuel st (name this) slug0 (findOne_slug slug0 st) 1;
    Some {| _id := _id this; name := name this; slug := Some slug';
            type := type this; parent := parent this; images := images this;
            createdBy := createdBy this |}
  else Some this.

(** [Category.create(body)]: build the document, validate it, run the hook,
    insert under the unique indexes. *)
Definition create (fuel : nat) (b : Body) : Async Category :=
  record (Category_create b) ≫= λ _,
  st ← reads categories;
  match newDocument (freshId st) b with
  | None => reject ValidationError
  | Some doc =>
    if validate doc then
      match preSave fuel st (bool_decide (is_Some (b_name b))) doc with
      | None => λ w, (OutOfFuel, w)
      | Some doc' =>
        if duplicateKey doc' st then reject DuplicateKey
        else writes (st ++ [doc']) ≫= λ _, mret doc'
      end
    else reject ValidationError
  end.

(** [Category.findByIdAndUpdate(id, body, { new: true, runValidators: true })].
    No save hook runs on this path. *)
Definition findByIdAndUpdate (id : ObjectId) (b : Body) : Async (option Category) :=
  record (Category_findByIdAndUpdate id b) ≫= λ _,
  st ← reads categories;
  if validateUpdate b then
    match findById id st with
    | None => mret None
    | Some old =>
      let new := applyUpdate b old in
      if duplicateKeyUpdate b new st then reject DuplicateKey
      else writes (replaceFirst id new st) ≫= λ _, mret (Some new)
    end
  else reject ValidationError.

Definition findByIdAndDelete (id : ObjectId) : Async unit :=
  record (Category_findByIdAndDelete id) ≫= λ _,
  st ← reads categories;
  writes (deleteFirst id st).

(** [cloudinary.uploader.destroy(publicId)]. *)
Definition destroy (publicId : string) : Async unit :=
  record (cloudinary_destroy publicId).

(** [.populate("createdBy", "name email")] on a freshly loaded document. *)
Definition populateCreatedBy (us : list User) (c : Category) : Node :=
  mkNode c (findUser (createdBy c) us) None.

(** [populateChildrenRecursively]; [fuel] bounds the depth of the
    recursion. *)
Fixpoint populateChildrenRecursively (fuel : nat) (st : list Category)
    (us : list User) (category : Node) : option Node :=
  match fuel with
  | 0 => None
  | S fuel' =>
    let children := populateCreatedBy us <$> childrenOf st (n_doc category) in
    match children with
    | [] => Some (mkNode (n_doc category) (n_createdBy category) (Some []))
    | _ :: _ =>
      children' ← mapM (populateChildrenRecursively fuel' st us) children;
      Some (mkNode (n_doc category) (n_createdBy category) (Some children'))
    end
  end.

Definition awaitPopulate (fuel : nat) (category : Node) : Async Node := λ w,
  match populateChildrenRecursively fuel (categories w) (users w) category with
  | Some n => (Returned n, w)
  | None => (OutOfFuel, w)
  end.

Fixpoint awaitAll {A B} (f : A → Async B) (l : list A) : Async (list B) :=
  match l with
  | [] => mret []
  | x :: l' => y ← f x; ys ← awaitAll f l'; mret (y :: ys)
  end.

(** [req.files && req.files.length]. *)
Definition hasFiles (req : Request) : bool :=
  match files req with
  | Some (_ :: _) => true
  | _ => false
  end.

(** [req.files.map(file => ({ url, altText, type }))]. *)
Definition imagesFromFiles (req : Request) : list Image :=
  (λ file, {| img_url := path file;
              img_altText := default "" (b_altText (body req));
              img_type := fieldname file;
              img_id := None |}) <$> default [] (files req).

Definition set_images (b : Body) (imgs : list Image) : Body :=
  mkBody (b_name b) (b_slug b) (b_type b) (b_parent b) (Some imgs) (b_altText b)
         (b_createdBy b).
Definition set_createdBy (b : Body) (u : ObjectId) : Body :=
  mkBody (b_name b) (b_slug b) (b_type b) (b_parent b) (b_images b) (b_altText b)
         (Some u).
Definition set_parent (b : Body) (p : ObjectId) : Body :=
  mkBody (b_name b) (b_slug b) (b_type b) (Some (Some p)) (b_images b) (b_altText b)
         (b_createdBy b).

(** The loop issuing one media-store deletion per image with an [id]. *)
Definition destroyImages (imgs : list Image) : Async unit :=
  forOf imgs (λ img,
    if truthy (img_id img) then destroy (default "" (img_id img)) else mret ()).

Definition getAllCategories (fuel : nat) (req : Request) : Async Reply :=
  catchAsync (
    let filter := mkFilter (Some None)
                    (if truthy (q_type (query req)) then q_type (query req)
                     else None) in
    found ← reads (λ w, populateCreatedBy (users w) <$> find filter (categories w));
    expanded ← awaitAll (awaitPopulate fuel) found;
    mret (successResponse (p_categories expanded)
            "Categories fetched successfully with nested children" None)).

Definition getCategory (fuel : nat) (req : Request) : Async Reply :=
  catchAsync (
    found ← reads (λ w, populateCreatedBy (users w)
                          <$> findOne_slug (params_slug req) (categories w));
    match found with
    | None => mret (NextError (mkAppError "No category found with that slug" 404))
    | Some category =>
      category' ← awaitPopulate fuel category;
      mret (successResponse (p_category_tree category')
              "Category fetched successfully with nested children" None)
    end).

Definition createCategory (fuel : nat) (req : Request) : Async Reply :=
  catchAsync (
    let body1 := if hasFiles req then set_images (body req) (imagesFromFiles req)
                 else body req in
    let body2 := set_createdBy body1 (user req) in
    newCategory ← create fuel body2;
    mret (successResponse (p_category (Some newCategory))
            "Category created successfully" (Some 201))).

Definition updateCategory (req : Request) : Async Reply :=
  catchAsync (
    found ← reads (λ w, findById (params_id req) (categories w));
    match found with
    | None => mret (NextError (mkAppError "No category found with that ID" 404))
    | Some category =>
      body1 ← (if hasFiles req then
                 destroyImages (images category) ≫= λ _,
                 mret (set_images (body req) (imagesFromFiles req))
               else mret (body req));
      updatedCategory ← findByIdAndUpdate (params_id req) body1;
      mret (successResponse (p_category updatedCategory)
              "Category updated successfully" None)
    end).

Definition deleteCategory (req : Request) : Async Reply :=
  catchAsync (
    found ← reads (λ w, findById (params_id req) (categories w));
    match found with
    | None => mret (NextError (mkAppError "No category found with that ID" 404))
    | Some category =>
      destroyImages (images category) ≫= λ _,
      findByIdAndDelete (params_id req) ≫= λ _,
      mret (successResponse p_null "Category deleted successfully" (Some 204))
    end).

Definition createSubCategory (fuel : nat) (req : Request) : Async Reply :=
  catchAsync (
    let body1 := set_createdBy (set_parent (body req) (params_parentId req)) (user req) in
    let body2 := if hasFiles req then set_images body1 (imagesFromFiles req)
                 else body1 in
    subCategory ← create fuel body2;
    mret (successResponse (p_subCategory (Some subCategory))
            "Subcategory created successfully" (Some 201))).

Definition updateSubCategory (req : Request) : Async Reply :=
  catchAsync (
    found ← reads (λ w, findById (params_id req) (categories w));
    match found with
    | None => mret (NextError (mkAppError "No subcategory found with that ID" 404))
    | Some subCategory =>
      body1 ← (if hasFiles req then
                 destroyImages (images subCategory) ≫= λ _,
                 mret (set_images (body req) (imagesFromFiles req))
               else mret (body req));
      updatedSubCategory ← findByIdAndUpdate (params_id req) body1;
      mret (successResponse (p_subCategory updatedSubCategory)
              "Subcategory updated successfully" None)
    end).

Definition deleteSubCategory (req : Request) : Async Reply :=
  catchAsync (
    found ← reads (λ w, findById (params_id req) (categories w));
    match found with
    | None => mret (NextError (mkAppError "No subcategory found with that ID" 404))
    | Some subCategory =>
      destroyImages (images subCategory) ≫= λ _,
      findByIdAndDelete (params_id req) ≫= λ _,
      mret (successResponse p_null "Subcategory deleted successfully" (Some 204))
    end).

(** [.populate("createdBy", "name email").populate("parent", "name slug type")]. *)
Definition populateListed (w : World) (c : Category) : Listed :=
  {| l_doc := c;
     l_createdBy := findUser (createdBy c) (users w);
     l_parent := p ← parent c; findById p (categories w) |}.

Definition getAllSubCategories (req : Request) : Async Reply :=
  catchAsync (
    let filter := mkFilter (Some <$> q_parentId (query req)) None in
    total ← reads (λ w, countDocuments filter (categories w));
    found ← reads (λ w, populateListed w <$> find filter (categories w));
    let subCategories := paginate (query req) total (sort (query req) found) in
    mret (successResponse
            (p_subCategories subCategories (pagination (query req) total))
            "Subcategories fetched successfully" None)).

End Controller.

(** ** Vocabulary of the properties *)

(** [s] is already the slug of a stored document. *)
Definition slugTaken (st : list Category) (s : string) : Prop :=
  ∃ c, c ∈ st ∧ slug c = Some s.

(** The candidate slug with the numeric suffix [k]. *)
Definition suffixed (base : string) (k : nat) : string :=
  base +:+ "-" +:+ pretty k.

Definition withSlug (c : Category) (s : string) : Category :=
  {| _id := _id c; name := name c; slug := Some s; type := type c;
     parent := parent c; images := images c; createdBy := createdBy c |}.

(** The stored parent/child relation on identifiers: [c] is the identifier of
    a stored document whose [parent] is [p]. *)
Definition parentLink (st : list Category) : relation ObjectId :=
  λ c p, ∃ d, d ∈ st ∧ _id d = c ∧ parent d = Some p.

(** No document is its own ancestor. *)
Definition acyclic (st : list Category) : Prop :=
  ∀ i, ¬ tc (parentLink st) i i.

(** [x] is a stored document below [root], at any depth. *)
Definition descendantOf (st : list Category) (root x : Category) : Prop :=
  x ∈ st ∧ tc (parentLink st) (_id x) (_id root).

(** Every node nested below [n] in an expanded structure, at any depth. *)
Fixpoint nested (n : Node) : list Node :=
  match n with
  | mkNode _ _ (Some ks) =>
    (fix go (l : list Node) : list Node :=
       match l with
       | [] => []
       | k :: l' => (k :: nested k) ++ go l'
       end) ks
  | mkNode _ _ None => []
  end.

(** The identifiers handed to the media store for a sequence of images: one
    per image record that carries one. *)
Definition assetIds (imgs : list Image) : list string :=
  omap (λ img, if truthy (img_id img) then img_id img else None) imgs.

Definition with_slug (b : Body) (s : option string) : Body :=
  mkBody (b_name b) s (b_type b) (b_parent b) (b_images b) (b_altText b)
         (b_createdBy b).

(** The same request with another [slug] in its body. *)
Definition set_slug (req : Request) (s : option string) : Request :=
  mkRequest (params_id req) (params_slug req) (params_parentId req)
    (with_slug (body req) s) (files req) (user req) (query req).

(** The same request asking for another page. *)
Definition set_page (req : Request) (page limit : option nat) : Request :=
  let q := query req in
  mkRequest (params_id req) (params_slug req) (params_parentId req) (body req)
    (files req) (user req)
    (mkQuery (q_type q) (q_parentId q) (q_sort q) (q_fields q) page limit).

Global Instance slugTaken_dec st s : Decision (slugTaken st s).
Proof.
  refine (cast_if (decide (Exists (λ c, slug c = Some s) st)));
    unfold slugTaken; rewrite Exists_exists in *; done.
Defined.

(** A handler that awaits one operation and answers with its result. *)
Definition answer {A} (f : A → Reply) (o : Outcome A) : Outcome Reply :=
  match o with
  | Returned a => Returned (f a)
  | Rejected e => Returned (NextThrown e)
  | OutOfFuel => OutOfFuel
  end.

(** ** A small catalogue for the concrete runs *)

Definition ann : User := mkUser 7 "Ann" "ann@example.com".

Definition shoes : Category :=
  mkCategory 1 "Shoes" (Some "shoes") "mega" None
    [mkImage "media/shoes-banner.png" "Shoes" "banner" (Some "shoes-banner");
     mkImage "media/shoes-thumb.png" "" "thumbnail" None] 7.
Definition boots : Category :=
  mkCategory 2 "Boots" (Some "boots") "normal" (Some 1) [] 7.
Definition laces : Category :=
  mkCategory 3 "Laces" (Some "laces") "normal" (Some 2) [] 7.

Definition catalogue : World := mkWorld [shoes; boots; laces] [ann] [].

Definition noBody : Body := mkBody None None None None None None None.
Definition noQuery : Query := mkQuery None None None None None None.

(** GET by the slug [shoes]; PATCH and DELETE address document 1. *)
Definition plainRequest : Request := mkRequest 1 "shoes" 1 noBody None 7 noQuery.

(** A request addressing nothing that is stored. *)
Definition strayRequest : Request := mkRequest 99 "hats" 1 noBody None 7 noQuery.

(** Renaming document 1. *)
Definition renameRequest : Request :=
  mkRequest 1 "shoes" 1 (mkBody (Some "Trainers") None None None None None None)
    None 7 noQuery.

(** Two uploaded files and one [altText]. *)
Definition uploadRequest : Request :=
  mkRequest 1 "shoes" 1 (mkBody None None None None None (Some "Red shoes") None)
    (Some [mkFile "uploads/a.png" "banner"; mkFile "uploads/b.png" "gallery"])
    7 noQuery.

(** Listing the subcategories of document 1. *)
Definition listRequest : Request :=
  mkRequest 1 "shoes" 1 noBody None 7 (mkQuery None (Some 1) None None None None).

(** A new document named [SHOES], before the save hook. *)
Definition shoesAgain : Category := mkCategory 4 "SHOES" None "normal" None [] 7.

(** A store whose only document is its own parent. *)
Definition loop : Category := mkCategory 1 "Loop" (Some "loop") "normal" (Some 1) [] 7.

(** ** Further vocabulary *)

Definition with_createdBy (b : Body) (u : option ObjectId) : Body :=
  mkBody (b_name b) (b_slug b) (b_type b) (b_parent b) (b_images b) (b_altText b) u.

Definition with_parent (b : Body) (p : option (option ObjectId)) : Body :=
  mkBody (b_name b) (b_slug b) (b_type b) p (b_images b) (b_altText b)
         (b_createdBy b).

(** The same request with another body, and with another slug parameter. *)
Definition set_body (req : Request) (b : Body) : Request :=
  mkRequest (params_id req) (params_slug req) (params_parentId req) b
    (files req) (user req) (query req).

Definition set_params_slug (req : Request) (s : string) : Request :=
  mkRequest (params_id req) s (params_parentId req) (body req)
    (files req) (user req) (query req).

(** What the identifiers and the two unique indexes of the schema ask of a
    store: no two documents share an [_id], a [name] or a [slug]. *)
Definition uniqueKeys (st : list Category) : Prop :=
  NoDup (_id <$> st) ∧ NoDup (name <$> st) ∧ NoDup (slug <$> st).

(** The documents [getAllCategories] asks the store for: [parent: null],
    and the [type] of the query when it has one. *)
Definition topLevel (q : Query) (c : Category) : Prop :=
  parent c = None ∧ (truthy (q_type q) = true → q_type q = Some (type c)).

Global Instance topLevel_dec q c : Decision (topLevel q c).
Proof. unfold topLevel. apply _. Defined.

(** An upload whose field name is none of the image types. *)
Definition badUploadRequest : Request :=
  mkRequest 1 "shoes" 1 noBody (Some [mkFile "uploads/c.png" "images"]) 7 noQuery.

(** Making document 2 its own parent. *)
Definition selfParentRequest : Request :=
  mkRequest 2 "boots" 1 (mkBody None None None (Some (Some 2)) None None None)
    None 7 noQuery.

(** A new subcategory under an identifier that no stored document has, with
    a creator and a parent of the client's choosing in the body. *)
Definition heelsRequest : Request :=
  mkRequest 0 "" 42
    (mkBody (Some "Heels") None None (Some (Some 1)) None None (Some 99))
    None 7 noQuery.

(** Creating a category whose name is taken. *)
Definition bootsAgainRequest : Request :=
  mkRequest 0 "" 0 (mkBody (Some "Boots") None None None None None None)
    None 7 noQuery.

(** ** Facts about the persistence layer *)

Lemma findOne_slug_None st s : findOne_slug s st = None ↔ ¬ slugTaken st s.
Proof.
  unfold findOne_slug, slugTaken. rewrite head_None. split.
  - intros Hnil (c & Hc & Hs).
    assert (c ∈ filter (λ c, slug c = Some s) st) as Hin
      by (apply list_elem_of_filter; done).
    rewrite Hnil in Hin. by apply not_elem_of_nil in Hin.
  - intros Hfree. destruct (filter _ st) as [|c l] eqn:Hf; [done|].
    exfalso. apply Hfree. exists c.
    assert (c ∈ filter (λ c, slug c = Some s) st) as Hin
      by (rewrite Hf; left).
    apply list_elem_of_filter in Hin as [? ?]. done.
Qed.

Lemma findOne_slug_Some st s : is_Some (findOne_slug s st) ↔ slugTaken st s.
Proof.
  split.
  - intros [c Hc]. unfold findOne_slug in Hc. apply head_Some_elem_of in Hc.
    apply list_elem_of_filter in Hc as [? ?]. by exists c.
  - intros Ht. apply not_eq_None_Some. rewrite findOne_slug_None. tauto.
Qed.

Lemma findById_Some id st c : findById id st = Some c → c ∈ st ∧ _id c = id.
Proof.
  unfold findById. intros H%head_Some_elem_of.
  apply list_elem_of_filter in H. tauto.
Qed.

Lemma findById_replaceFirst id new st old :
  findById id st = Some old → _id new = id →
  findById id (replaceFirst id new st) = Some new.
Proof.
  unfold findById. induction st as [|c st IH]; simpl; [done|].
  intros Hold Hid. rewrite filter_cons in Hold.
  destruct (decide (_id c = id)) as [Hc|Hc].
  - rewrite filter_cons. by rewrite decide_True.
  - rewrite filter_cons, decide_False by done. by apply IH.
Qed.

Lemma suffixed_inj base : Inj (=) (=) (suffixed base).
Proof.
  intros j k H. unfold suffixed in H.
  apply (inj (String.app base)) in H.
  apply (inj (String.app "-")) in H.
  by apply (inj pretty) in H.
Qed.

(** A store of [n] documents cannot hold all the [n + 1] candidates
    [base-1], ..., [base-(n+1)]. *)
Lemma free_suffix_within st base :
  ∃ k, 1 ≤ k < 1 + S (length st) ∧ ¬ slugTaken st (suffixed base k).
Proof.
  destruct (decide (Exists (λ k, ¬ slugTaken st (suffixed base k))
                      (seq 1 (S (length st))))) as [Hex|Hall].
  - apply Exists_exists in Hex as (k & Hk & Hfree).
    apply elem_of_seq in Hk. exists k. split; [lia|done].
  - exfalso. apply not_Exists_Forall in Hall; [|apply _].
    assert (Some ∘ suffixed base <$> seq 1 (S (length st)) ⊆+ slug <$> st) as Hsub.
    { apply NoDup_submseteq.
      - apply NoDup_fmap_2; [|apply NoDup_seq].
        intros j k [=H]. by apply suffixed_inj in H.
      - intros x (k & -> & Hk)%list_elem_of_fmap.
        rewrite Forall_forall in Hall. specialize (Hall k Hk). simpl in Hall.
        apply dec_stable in Hall as (c & Hc & Hs).
        apply list_elem_of_fmap. exists c. by rewrite Hs. }
    apply submseteq_length in Hsub.
    rewrite !length_fmap, length_seq in Hsub. lia.
Qed.

(** The least free suffix in a range that holds one. *)
Lemma least_free_suffix st base n a :
  (∃ k, a ≤ k < a + n ∧ ¬ slugTaken st (suffixed base k)) →
  ∃ k, a ≤ k < a + n ∧ ¬ slugTaken st (suffixed base k)
       ∧ ∀ j, a ≤ j < k → slugTaken st (suffixed base j).
Proof.
  revert a. induction n as [|n IH]; intros a (k & Hk & Hfree); [lia|].
  destruct (decide (slugTaken st (suffixed base a))) as [Ha|Ha].
  - destruct (IH (S a)) as (k' & Hk' & Hfree' & Hbelow).
    { exists k. split; [|done]. destruct (decide (k = a)) as [->|]; [done|lia]. }
    exists k'. split; [lia|]. split; [done|].
    intros j Hj. destruct (decide (j = a)) as [->|]; [done|]. apply Hbelow. lia.
  - exists a. split; [lia|]. split; [done|]. intros j Hj. lia.
Qed.

(** ** Slug assignment *)

Section SlugAssignment.

Variable createSlug : string → string.

Lemma whileSlugExists_free fuel st nm s count :
  whileSlugExists createSlug fuel st nm s None count = Some s.
Proof. by destruct fuel. Qed.

(** Entered with a taken slug, the loop stops at the first free suffix from
    [count] on, provided the fuel reaches it. *)
Lemma whileSlugExists_first_free st nm fuel : ∀ count k s e,
  count ≤ k < count + fuel →
  ¬ slugTaken st (suffixed (createSlug nm) k) →
  (∀ j, count ≤ j < k → slugTaken st (suffixed (createSlug nm) j)) →
  whileSlugExists createSlug fuel st nm s (Some e) count
  = Some (suffixed (createSlug nm) k).
Proof.
  induction fuel as [|fuel IH]; intros count k s e Hk Hfree Hbelow; [lia|].
  simpl. fold (suffixed (createSlug nm) count).
  destruct (decide (count = k)) as [->|Hne].
  - apply findOne_slug_None in Hfree. rewrite Hfree.
    apply whileSlugExists_free.
  - assert (slugTaken st (suffixed (createSlug nm) count)) as Ht
      by (apply Hbelow; lia).
    apply findOne_slug_Some in Ht as [e' ->].
    apply IH; [lia|done|]. intros j Hj. apply Hbelow. lia.
Qed.

Lemma newDocument_name oid b d :
  newDocument oid b = Some d → is_Some (b_name b).
Proof. unfold newDocument. destruct (b_name b); [eauto|done]. Qed.

Lemma duplicateKey_false c st :
  (∀ d, d ∈ st → name d ≠ name c) →
  (∀ s, slug c = Some s → ¬ slugTaken st s) →
  is_Some (slug c) →
  duplicateKey c st = false.
Proof.
  intros Hname Hslug [s Hs]. unfold duplicateKey.
  apply not_true_is_false. intros (d & Hd & Hdup)%existsb_exists.
  apply list_elem_of_In in Hd.
  apply orb_true_iff in Hdup as [Hn%bool_decide_eq_true|Hsl%bool_decide_eq_true].
  - by apply (Hname d).
  - apply (Hslug s Hs). exists d. by rewrite Hsl.
Qed.

(** C1. Slug assignment at creation.  With fuel beyond the size of the
    store, the save hook of a document whose name has been set ends, and the
    slug it assigns is free; it is the slugified name when no stored document
    has that slug, and otherwise the slugified name with the first free
    suffix among -1, -2, ...; [Category.create] stores the document with that
    slug whenever the document is valid and its name is new. *)
Theorem slug_assigned_at_creation fuel st this :
  length st < fuel →
  let base := createSlug (name this) in
  ∃ s, preSave createSlug fuel st true this = Some (withSlug this s)
    ∧ ¬ slugTaken st s
    ∧ (¬ slugTaken st base → s = base)
    ∧ (slugTaken st base →
       ∃ k, 1 ≤ k ∧ s = suffixed base k
            ∧ ∀ j, 1 ≤ j < k → slugTaken st (suffixed base j))
    ∧ (∀ b w,
         categories w = st →
         newDocument (freshId st) b = Some this →
         validate this = true →
         (∀ d, d ∈ st → name d ≠ name this) →
         create createSlug fuel b w
         = (Returned (withSlug this s),
            mkWorld (st ++ [withSlug this s]) (users w)
                    (calls w ++ [Category_create b]))).
Proof.
  intros Hfuel base.
  assert (∃ s, preSave createSlug fuel st true this = Some (withSlug this s)
             ∧ ¬ slugTaken st s
             ∧ (¬ slugTaken st base → s = base)
             ∧ (slugTaken st base →
                ∃ k, 1 ≤ k ∧ s = suffixed base k
                     ∧ ∀ j, 1 ≤ j < k → slugTaken st (suffixed base j)))
    as (s & Hpre & Hfree & Hfresh & Hcoll).
  { unfold preSave. fold base.
    destruct (findOne_slug base st) as [e|] eqn:Hfind.
    - assert (slugTaken st base) as Htaken
        by (apply findOne_slug_Some; rewrite Hfind; eauto).
      destruct (least_free_suffix st base (S (length st)) 1
                  (free_suffix_within st base)) as (k & Hk & Hfree & Hbelow).
      exists (suffixed base k).
      rewrite (whileSlugExists_first_free st (name this) fuel 1 k base e);
        [|lia|done|done].
      split; [done|]. split; [done|]. split; [tauto|].
      intros _. exists k. split; [lia|]. split; [done|]. done.
    - exists base. rewrite whileSlugExists_free.
      apply findOne_slug_None in Hfind.
      split; [done|]. split; [done|]. split; [done|]. tauto. }
  exists s. do 4 (split; [done|]).
  intros b [st' us cs] Hst Hnew Hvalid Hname. simpl in Hst. subst st'.
  unfold create, record, reads, writes, mbind, mret, Async_bind, Async_ret.
  simpl. rewrite Hnew, Hvalid.
  apply newDocument_name in Hnew.
  rewrite (bool_decide_eq_true_2 _ Hnew), Hpre.
  rewrite duplicateKey_false; [done|done| |by eexists].
  simpl. by intros ? [= <-].
Qed.

End SlugAssignment.

(** ** Recursive expansion of the tree *)

Lemma NoDup_fmap_eq {A B} (f : A → B) (l : list A) x y :
  NoDup (f <$> l) → x ∈ l → y ∈ l → f x = f y → x = y.
Proof.
  induction l as [|a l IH]; intros Hnd Hx Hy Hf; [by apply not_elem_of_nil in Hx|].
  rewrite fmap_cons in Hnd. apply NoDup_cons in Hnd as [Ha Hnd].
  apply elem_of_cons in Hx as [->|Hx]; apply elem_of_cons in Hy as [->|Hy].
  - done.
  - exfalso. apply Ha. rewrite Hf. by apply list_elem_of_fmap_2.
  - exfalso. apply Ha. rewrite <-Hf. by apply list_elem_of_fmap_2.
  - by apply IH.
Qed.

Lemma Forall2_elem_of_r {A B} (P : A → B → Prop) l k y :
  Forall2 P l k → y ∈ k → ∃ x, x ∈ l ∧ P x y.
Proof.
  induction 1 as [|x y' l k HP _ IH]; intros Hy; [by apply not_elem_of_nil in Hy|].
  apply elem_of_cons in Hy as [->|Hy].
  - exists x. split; [left|done].
  - destruct (IH Hy) as (x' & ? & ?). exists x'. split; [by right|done].
Qed.

Lemma Forall2_elem_of_l {A B} (P : A → B → Prop) l k x :
  Forall2 P l k → x ∈ l → ∃ y, y ∈ k ∧ P x y.
Proof.
  induction 1 as [|x' y l k HP _ IH]; intros Hx; [by apply not_elem_of_nil in Hx|].
  apply elem_of_cons in Hx as [->|Hx].
  - exists y. split; [left|done].
  - destruct (IH Hx) as (y' & ? & ?). exists y'. split; [by right|done].
Qed.

Lemma tc_inv_r {A} (R : relation A) x z :
  tc R x z → R x z ∨ ∃ y, tc R x y ∧ R y z.
Proof.
  induction 1 as [x z HR|x y z HR _ IH]; [by left|]. right.
  destruct IH as [Hyz|(y' & Hyy' & Hy'z)].
  - exists y. split; [by apply tc_once|done].
  - exists y'. split; [by eapply tc_l|done].
Qed.

(** Two chains of links leaving the same point run along each other when
    every point has at most one link out. *)
Lemma rtc_comparable {A} (R : relation A) :
  (∀ x y z, R x y → R x z → y = z) →
  ∀ x a b, rtc R x a → rtc R x b → rtc R a b ∨ rtc R b a.
Proof.
  intros Hfun x a b Ha. revert b.
  induction Ha as [x|x y a Hxy Hya IH]; intros b Hb; [by left|].
  apply rtc_inv in Hb as [<-|(y' & Hxy' & Hy'b)].
  - right. by eapply rtc_l.
  - rewrite <-(Hfun _ _ _ Hxy Hxy') in Hy'b. by apply IH.
Qed.

Section Expansion.

Variable st : list Category.
Variable us : list User.

Lemma populate_unfold fuel node :
  populateChildrenRecursively (S fuel) st us node
  = (ks ← mapM (populateChildrenRecursively fuel st us)
             (populateCreatedBy us <$> childrenOf st (n_doc node));
     Some (mkNode (n_doc node) (n_createdBy node) (Some ks))).
Proof. simpl. by destruct (populateCreatedBy us <$> childrenOf st (n_doc node)). Qed.

Lemma nested_unfold d u ks :
  nested (mkNode d u (Some ks)) = ks ≫= (λ k, k :: nested k).
Proof.
  simpl. induction ks as [|k ks IH]; [done|].
  rewrite bind_cons, <-IH. done.
Qed.

Lemma docs_nested_unfold d u ks :
  n_doc <$> nested (mkNode d u (Some ks))
  = ks ≫= (λ k, n_doc k :: (n_doc <$> nested k)).
Proof.
  rewrite nested_unfold. induction ks as [|k ks IH]; [done|].
  rewrite !bind_cons, fmap_app, IH. done.
Qed.

Lemma childrenOf_spec d c :
  c ∈ childrenOf st d ↔ c ∈ st ∧ parent c = Some (_id d).
Proof. unfold childrenOf. rewrite list_elem_of_filter. tauto. Qed.

Lemma childrenOf_link d c : c ∈ childrenOf st d → parentLink st (_id c) (_id d).
Proof. intros [? ?]%childrenOf_spec. by exists c. Qed.

(** The shape of every successful expansion: the root keeps its document and
    creator, and its children are the expansions of its stored children, each
    loaded with its creator. *)
Lemma populate_inv fuel node t :
  populateChildrenRecursively fuel st us node = Some t →
  ∃ fuel' ks,
    fuel = S fuel'
    ∧ t = mkNode (n_doc node) (n_createdBy node) (Some ks)
    ∧ Forall2 (λ c k, populateChildrenRecursively fuel' st us (populateCreatedBy us c)
                      = Some k)
              (childrenOf st (n_doc node)) ks.
Proof.
  destruct fuel as [|fuel]; [done|]. rewrite populate_unfold.
  destruct (mapM _ _) as [ks|] eqn:Hks; [|done]. intros [= <-].
  exists fuel, ks. split; [done|]. split; [done|].
  apply mapM_Some_1 in Hks. by apply Forall2_fmap_l in Hks.
Qed.

(** Induction over a successful expansion. *)
Lemma populate_rect (P : Category → Node → Prop) :
  (∀ d u ks,
     Forall2 (λ c k, n_doc k = c
                     ∧ n_createdBy k = findUser (createdBy c) us
                     ∧ P c k)
             (childrenOf st d) ks →
     P d (mkNode d u (Some ks))) →
  ∀ fuel node t,
    populateChildrenRecursively fuel st us node = Some t →
    n_doc t = n_doc node ∧ n_createdBy t = n_createdBy node ∧ P (n_doc node) t.
Proof.
  intros Hstep. induction fuel as [|fuel IH]; intros node t Ht; [done|].
  apply populate_inv in Ht as (fuel' & ks & [= <-] & -> & Hks).
  split; [done|]. split; [done|]. apply Hstep.
  eapply Forall2_impl; [exact Hks|]. intros c k Hk. simpl in Hk.
  apply IH in Hk as (? & ? & ?). done.
Qed.

Lemma Forall2_docs (P : Category → Node → Prop) cs ks :
  (∀ c k, P c k → n_doc k = c) → Forall2 P cs ks → n_doc <$> ks = cs.
Proof.
  intros HP. induction 1 as [|c k cs ks Hd _ IH]; [done|].
  rewrite fmap_cons, IH, (HP _ _ Hd). done.
Qed.

(** Every node of the result has its [children] set, to the expansions of
    exactly its stored children. *)
Lemma populate_children_set fuel node t :
  populateChildrenRecursively fuel st us node = Some t →
  Forall (λ k, ∃ ks, n_children k = Some ks
                     ∧ n_doc <$> ks = childrenOf st (n_doc k))
         (t :: nested t).
Proof.
  intros Ht.
  apply (populate_rect (λ _ t, Forall (λ k, ∃ ks, n_children k = Some ks
            ∧ n_doc <$> ks = childrenOf st (n_doc k)) (t :: nested t))) in Ht;
    [tauto|].
  clear. intros d u ks Hks. apply Forall_cons. split.
  - exists ks. split; [done|]. simpl.
    eapply Forall2_docs; [|exact Hks]. simpl. tauto.
  - rewrite nested_unfold. apply Forall_forall. intros x Hx.
    apply list_elem_of_bind in Hx as (k & Hx & Hk).
    destruct (Forall2_elem_of_r _ _ _ _ Hks Hk) as (c & _ & _ & _ & Hall).
    rewrite Forall_forall in Hall. by apply Hall.
Qed.

(** Every nested node carries its creator. *)
Lemma populate_creators fuel node t :
  populateChildrenRecursively fuel st us node = Some t →
  Forall (λ k, n_createdBy k = findUser (createdBy (n_doc k)) us) (nested t).
Proof.
  intros Ht.
  apply (populate_rect (λ _ t, Forall (λ k, n_createdBy k
            = findUser (createdBy (n_doc k)) us) (nested t))) in Ht; [tauto|].
  clear. intros d u ks Hks. rewrite nested_unfold.
  apply Forall_forall. intros x Hx.
  apply list_elem_of_bind in Hx as (k & Hx & Hk).
  destruct (Forall2_elem_of_r _ _ _ _ Hks Hk) as (c & _ & Hd & Hu & Hall).
  apply elem_of_cons in Hx as [->|Hx].
  - by rewrite Hd.
  - rewrite Forall_forall in Hall. by apply Hall.
Qed.

(** Every nested document is a stored descendant of the root. *)
Lemma populate_sound fuel node t :
  populateChildrenRecursively fuel st us node = Some t →
  ∀ x, x ∈ n_doc <$> nested t → descendantOf st (n_doc node) x.
Proof.
  intros Ht.
  apply (populate_rect (λ d t, ∀ x, x ∈ n_doc <$> nested t → descendantOf st d x))
    in Ht; [tauto|].
  clear. intros d u ks Hks x. rewrite docs_nested_unfold.
  intros (k & Hx & Hk)%list_elem_of_bind.
  destruct (Forall2_elem_of_r _ _ _ _ Hks Hk) as (c & Hc & Hd & _ & Hbelow).
  pose proof (childrenOf_link _ _ Hc) as Hlink.
  apply childrenOf_spec in Hc as [Hc _].
  apply elem_of_cons in Hx as [->|Hx].
  - rewrite Hd. split; [done|]. by apply tc_once.
  - destruct (Hbelow x Hx) as [Hin Htc]. split; [done|].
    eapply tc_r; [exact Htc|done].
Qed.

(** Documents are told apart by their identifiers. *)
Lemma store_id_inj c d :
  NoDup (_id <$> st) → c ∈ st → d ∈ st → _id c = _id d → c = d.
Proof. apply NoDup_fmap_eq. Qed.

Lemma parentLink_functional :
  NoDup (_id <$> st) → ∀ x y z, parentLink st x y → parentLink st x z → y = z.
Proof.
  intros Hnd x y z (c & Hc & Hcx & Hcy) (d & Hd & Hdx & Hdz).
  assert (c = d) as -> by (apply store_id_inj; congruence).
  congruence.
Qed.

(** A stored descendant of the root is nested in the result. *)
Lemma populate_complete fuel node t :
  NoDup (_id <$> st) →
  populateChildrenRecursively fuel st us node = Some t →
  ∀ x, descendantOf st (n_doc node) x → x ∈ n_doc <$> nested t.
Proof.
  intros Hnd Ht.
  apply (populate_rect (λ d t, ∀ x, descendantOf st d x → x ∈ n_doc <$> nested t))
    in Ht; [tauto|].
  clear -Hnd. intros d u ks Hks x [Hx Htc]. rewrite docs_nested_unfold.
  apply list_elem_of_bind.
  apply tc_inv_r in Htc as [(c & Hc & Hcx & Hcp)|(y & Htc & (c & Hc & Hcy & Hcp))].
  - assert (c = x) as -> by (by apply store_id_inj).
    assert (x ∈ childrenOf st d) as Hchild by (by apply childrenOf_spec).
    destruct (Forall2_elem_of_l _ _ _ _ Hks Hchild) as (k & Hk & Hd & _).
    exists k. split; [|done]. rewrite Hd. left.
  - assert (c ∈ childrenOf st d) as Hchild by (by apply childrenOf_spec).
    destruct (Forall2_elem_of_l _ _ _ _ Hks Hchild) as (k & Hk & Hd & _ & Hbelow).
    exists k. split; [|done]. right. apply Hbelow. split; [done|]. by rewrite Hcy.
Qed.

(** Two stored children of one document are not below one another. *)
Lemma siblings_apart d c1 c2 :
  NoDup (_id <$> st) → acyclic st →
  c1 ∈ childrenOf st d → c2 ∈ childrenOf st d →
  rtc (parentLink st) (_id c1) (_id c2) → c1 = c2.
Proof.
  intros Hnd Hacyc H1 H2 Hrtc.
  pose proof (childrenOf_link _ _ H1) as Hl1.
  pose proof (childrenOf_link _ _ H2) as Hl2.
  apply childrenOf_spec in H1 as [H1 _]. apply childrenOf_spec in H2 as [H2 _].
  apply rtc_inv in Hrtc as [Heq|(y & Hy & Hrtc)]; [by apply store_id_inj|].
  rewrite (parentLink_functional Hnd _ _ _ Hy Hl1) in Hrtc.
  exfalso. apply (Hacyc (_id c2)).
  eapply tc_rtc_r; [by apply tc_once|done].
Qed.

(** No document is nested twice. *)
Lemma populate_NoDup fuel node t :
  NoDup (_id <$> st) → acyclic st →
  populateChildrenRecursively fuel st us node = Some t →
  NoDup (n_doc <$> nested t).
Proof.
  intros Hnd Hacyc Ht.
  apply (populate_rect (λ d t, NoDup (n_doc <$> nested t)
            ∧ ∀ x, x ∈ n_doc <$> nested t → descendantOf st d x)) in Ht; [tauto|].
  clear -Hnd Hacyc. intros d u ks Hks.
  assert (n_doc <$> ks = childrenOf st d) as Hdocs
    by (eapply Forall2_docs; [|exact Hks]; simpl; tauto).
  assert (∀ k x, k ∈ ks → x ∈ n_doc k :: (n_doc <$> nested k) →
            n_doc k ∈ childrenOf st d ∧ x ∈ st
            ∧ rtc (parentLink st) (_id x) (_id (n_doc k))) as Hbelow.
  { intros k x Hk Hx.
    destruct (Forall2_elem_of_r _ _ _ _ Hks Hk) as (c & Hc & Hd & _ & _ & Hb).
    rewrite Hd. split; [done|].
    apply elem_of_cons in Hx as [->|Hx].
    - rewrite Hd. split; [by apply childrenOf_spec in Hc as [? _]|done].
    - destruct (Hb x Hx) as [? ?]. split; [done|]. by apply tc_rtc. }
  split.
  - rewrite docs_nested_unfold. apply NoDup_bind.
    + intros k1 k2 x Hk1 Hk2 Hx1 Hx2.
      destruct (Hbelow k1 x Hk1 Hx1) as (Hc1 & _ & Hr1).
      destruct (Hbelow k2 x Hk2 Hx2) as (Hc2 & _ & Hr2).
      apply (NoDup_fmap_eq n_doc ks); [|done|done|].
      { rewrite Hdocs. apply NoDup_filter. by eapply NoDup_fmap_1. }
      destruct (rtc_comparable _ (parentLink_functional Hnd) _ _ _ Hr1 Hr2).
      * by eapply siblings_apart.
      * symmetry. by eapply siblings_apart.
    + intros k Hk.
      destruct (Forall2_elem_of_r _ _ _ _ Hks Hk) as (c & Hc & Hd & _ & Hnd' & Hb).
      apply NoDup_cons. split; [|done].
      intros Hself. destruct (Hb _ Hself) as [_ Htc].
      rewrite Hd in Htc. by apply (Hacyc (_id c)).
    + apply (NoDup_fmap_1 n_doc). rewrite Hdocs.
      apply NoDup_filter. by eapply NoDup_fmap_1.
  - intros x. rewrite docs_nested_unfold.
    intros (k & Hx & Hk)%list_elem_of_bind.
    destruct (Forall2_elem_of_r _ _ _ _ Hks Hk) as (c & Hc & Hd & _ & _ & Hb).
    pose proof (childrenOf_link _ _ Hc) as Hlink.
    apply childrenOf_spec in Hc as [Hc _].
    apply elem_of_cons in Hx as [->|Hx].
    + rewrite Hd. split; [done|]. by apply tc_once.
    + destruct (Hb x Hx) as [Hin Htc]. split; [done|].
      eapply tc_r; [exact Htc|done].
Qed.

(** More fuel does not change a result. *)
Lemma populate_fuel_mono fuel : ∀ fuel' node t,
  fuel ≤ fuel' →
  populateChildrenRecursively fuel st us node = Some t →
  populateChildrenRecursively fuel' st us node = Some t.
Proof.
  induction fuel as [|fuel IH]; intros fuel' node t Hle Ht; [done|].
  destruct fuel' as [|fuel']; [lia|].
  rewrite populate_unfold in Ht. rewrite populate_unfold.
  destruct (mapM _ _) as [ks|] eqn:Hks; [|done].
  apply mapM_Some_1 in Hks.
  erewrite (mapM_Some_2 _ _ ks); [done|].
  eapply Forall2_impl; [exact Hks|]. intros c k. simpl. apply IH. lia.
Qed.

(** Along a descent, the identifiers of the documents passed are pairwise
    distinct stored identifiers, so the descent is no deeper than the store
    is large. *)
Lemma populate_descends fuel : ∀ visited c,
  acyclic st →
  NoDup visited →
  visited ⊆ _id <$> st →
  (∀ v, v ∈ visited → tc (parentLink st) (_id c) v) →
  c ∈ st →
  length st < fuel + length visited →
  is_Some (populateChildrenRecursively fuel st us (populateCreatedBy us c)).
Proof.
  induction fuel as [|fuel IH]; intros visited c Hacyc Hnd Hsub Hanc Hc Hlen.
  - assert (_id c :: visited ⊆+ _id <$> st) as Hle.
    { apply NoDup_submseteq.
      - apply NoDup_cons. split; [|done]. intros Hin. by apply (Hacyc (_id c)), Hanc.
      - intros i [->|Hi]%elem_of_cons; [by apply list_elem_of_fmap_2|by apply Hsub]. }
    apply submseteq_length in Hle. rewrite length_fmap in Hle. simpl in *. lia.
  - rewrite populate_unfold.
    assert (is_Some (mapM (populateChildrenRecursively fuel st us)
              (populateCreatedBy us <$> childrenOf st (n_doc (populateCreatedBy us c)))))
      as [ks ->]; [|by eexists].
    apply mapM_is_Some_2, Forall_fmap, Forall_forall. intros k Hk. simpl in *.
    pose proof (childrenOf_link _ _ Hk) as Hlink.
    apply (IH (_id c :: visited)).
    + done.
    + apply NoDup_cons. split; [|done]. intros Hin. by apply (Hacyc (_id c)), Hanc.
    + intros i [->|Hi]%elem_of_cons; [by apply list_elem_of_fmap_2|by apply Hsub].
    + intros v [->|Hv]%elem_of_cons; [by apply tc_once|].
      eapply tc_l; [done|by apply Hanc].
    + by apply childrenOf_spec in Hk as [? _].
    + simpl. lia.
Qed.

(** On an acyclic store the expansion of any node ends. *)
Lemma populate_terminates node :
  acyclic st →
  is_Some (populateChildrenRecursively (S (S (length st))) st us node).
Proof.
  intros Hacyc. rewrite populate_unfold.
  assert (is_Some (mapM (populateChildrenRecursively (S (length st)) st us)
            (populateCreatedBy us <$> childrenOf st (n_doc node))))
    as [ks ->]; [|by eexists].
  apply mapM_is_Some_2, Forall_fmap, Forall_forall. intros k Hk.
  unfold compose.
  apply (populate_descends _ []); try done.
  - apply NoDup_nil_2.
  - intros i Hi. by apply not_elem_of_nil in Hi.
  - intros v Hv. by apply not_elem_of_nil in Hv.
  - by apply childrenOf_spec in Hk as [? _].
  - simpl. lia.
Qed.

(** One level of recursion suffices exactly at the nodes without stored
    children. *)
Lemma populate_leaf node :
  is_Some (populateChildrenRecursively 1 st us node)
  ↔ childrenOf st (n_doc node) = [].
Proof.
  rewrite populate_unfold. split.
  - destruct (childrenOf st (n_doc node)) as [|c cs]; [done|].
    intros [t Ht]. by rewrite fmap_cons in Ht.
  - intros ->. by eexists.
Qed.

End Expansion.

(** A document that is its own parent is expanded without end. *)
Lemma populate_self_parent st us c :
  c ∈ st → parent c = Some (_id c) →
  ∀ fuel node, n_doc node = c →
    populateChildrenRecursively fuel st us node = None.
Proof.
  intros Hc Hp. induction fuel as [|fuel IH]; intros node Hnode; [done|].
  rewrite populate_unfold, Hnode.
  rewrite mapM_None_2; [done|].
  apply Exists_exists. exists (populateCreatedBy us c). split.
  - apply list_elem_of_fmap_2. by apply childrenOf_spec.
  - by apply IH.
Qed.

(** C3. Termination of the expansion.  On a store whose parent/child relation
    is acyclic the recursive expansion of any node ends: fuel beyond the size
    of the store gives a result, the same for any larger fuel.  The recursion
    needs no further level exactly at the nodes without stored children. *)
Theorem expansion_terminates st us node :
  acyclic st →
  (∃ t, ∀ fuel, S (S (length st)) ≤ fuel →
          populateChildrenRecursively fuel st us node = Some t)
  ∧ (∀ n, is_Some (populateChildrenRecursively 1 st us n)
          ↔ childrenOf st (n_doc n) = []).
Proof.
  intros Hacyc. split; [|apply populate_leaf].
  destruct (populate_terminates st us node Hacyc) as [t Ht].
  exists t. intros fuel Hfuel. by eapply populate_fuel_mono.
Qed.

(** C2. Recursive tree expansion.  On a store with distinct identifiers and
    an acyclic parent/child relation, fetching a category by its slug answers
    with the category expanded: the documents nested below it are exactly
    its stored descendants, each once (so they are as many as the
    descendants, N), every nested node carries its creator, and every node
    of the answer, leaves included, has its children set, to an empty
    sequence where the document has no stored children. *)
Theorem getCategory_expands_subtree req w root :
  NoDup (_id <$> categories w) →
  acyclic (categories w) →
  findOne_slug (params_slug req) (categories w) = Some root →
  ∃ t,
    (∀ fuel, S (S (length (categories w))) ≤ fuel →
       getCategory fuel req w
       = (Returned (Response 200 "Category fetched successfully with nested children"
                             (p_category_tree t)), w))
    ∧ n_doc t = root
    ∧ n_createdBy t = findUser (createdBy root) (users w)
    ∧ NoDup (n_doc <$> nested t)
    ∧ (∀ x, x ∈ n_doc <$> nested t ↔ descendantOf (categories w) root x)
    ∧ (∀ descs, NoDup descs →
         (∀ x, x ∈ descs ↔ descendantOf (categories w) root x) →
         length (nested t) = length descs ∧ n_doc <$> nested t ≡ₚ descs)
    ∧ Forall (λ k, n_createdBy k = findUser (createdBy (n_doc k)) (users w))
             (nested t)
    ∧ Forall (λ k, ∃ ks, n_children k = Some ks
                         ∧ n_doc <$> ks = childrenOf (categories w) (n_doc k)
                         ∧ (childrenOf (categories w) (n_doc k) = [] → ks = []))
             (t :: nested t).
Proof.
  intros Hnd Hacyc Hfind.
  set (st := categories w) in *. set (us := users w).
  destruct (populate_terminates st us (populateCreatedBy us root) Hacyc)
    as [t Ht].
  assert (∀ x, x ∈ n_doc <$> nested t ↔ descendantOf st root x) as Hiff.
  { intros x. split.
    - by apply (populate_sound st us _ _ _ Ht).
    - by apply (populate_complete st us _ _ _ Hnd Ht). }
  pose proof (populate_NoDup st us _ _ _ Hnd Hacyc Ht) as Hnodup.
  exists t. split; [|split; [|split; [|split; [|split; [|split; [|split]]]]]].
  - intros fuel Hfuel.
    unfold getCategory, catchAsync, reads, awaitPopulate, successResponse,
      mbind, mret, Async_bind, Async_ret.
    fold st us. rewrite Hfind. simpl. fold st us.
    by rewrite (populate_fuel_mono st us _ _ _ _ Hfuel Ht).
  - by apply populate_inv in Ht as (? & ? & _ & -> & _).
  - by apply populate_inv in Ht as (? & ? & _ & -> & _).
  - done.
  - done.
  - intros descs Hdescs Hall.
    assert (n_doc <$> nested t ≡ₚ descs) as Hperm.
    { apply NoDup_Permutation; [done|done|]. intros x. by rewrite Hiff, Hall. }
    split; [|done]. by rewrite <-Hperm, length_fmap.
  - by apply (populate_creators st us _ _ _ Ht).
  - eapply Forall_impl; [by apply (populate_children_set st us _ _ _ Ht)|].
    intros k (ks & Hks & Hdocs). exists ks. split; [done|]. split; [done|].
    intros Hleaf. rewrite Hleaf in Hdocs. by apply fmap_nil_inv in Hdocs.
Qed.

(** ** Updating, deleting and the media store *)

Lemma assetIds_carried imgs :
  Some <$> assetIds imgs
  = img_id <$> filter (λ img, truthy (img_id img) = true) imgs.
Proof.
  unfold assetIds. induction imgs as [|img imgs IH]; [done|].
  rewrite filter_cons. cbn [omap list_omap].
  destruct (truthy (img_id img)) eqn:Ht.
  - rewrite decide_True by done.
    destruct (img_id img) as [s|] eqn:Hid; [|done].
    rewrite !fmap_cons, Hid. by f_equal.
  - rewrite decide_False by done. done.
Qed.

Lemma destroyImages_run imgs : ∀ w,
  destroyImages imgs w
  = (Returned (), mkWorld (categories w) (users w)
                          (calls w ++ (cloudinary_destroy <$> assetIds imgs))).
Proof.
  unfold destroyImages, assetIds.
  induction imgs as [|img imgs IH]; intros [st us cs]; simpl.
  - unfold mret, Async_ret. by rewrite app_nil_r.
  - unfold mbind, Async_bind.
    destruct (img_id img) as [s|]; simpl; [destruct (bool_decide (s ≠ ""))|]; simpl.
    + unfold destroy, record. simpl. rewrite IH. simpl. by rewrite <-app_assoc.
    + unfold mret at 1, Async_ret at 1. by rewrite IH.
    + unfold mret at 1, Async_ret at 1. by rewrite IH.
Qed.

Lemma hasFiles_Some req fs : files req = Some fs → fs ≠ [] → hasFiles req = true.
Proof. unfold hasFiles. intros ->. by destruct fs. Qed.

Lemma applyUpdate_id b old : _id (applyUpdate b old) = _id old.
Proof. done. Qed.

Lemma imap_Forall2 {A B} (P : A → B → Prop) (f : nat → A → B) l :
  (∀ k x, P x (f k x)) → Forall2 P l (imap f l).
Proof.
  revert f. induction l as [|x l IH]; intros f Hf; simpl; constructor.
  - apply Hf.
  - apply IH. intros k y. apply Hf.
Qed.

Lemma imageId_truthy owner k : truthy (Some (imageId owner k)) = true.
Proof. apply bool_decide_eq_true. unfold imageId. by cbv [String.append]. Qed.

Lemma Forall2_compose {A B C} (P : A → B → Prop) (Q : B → C → Prop)
    (R : A → C → Prop) l k m :
  (∀ x y z, P x y → Q y z → R x z) →
  Forall2 P l k → Forall2 Q k m → Forall2 R l m.
Proof.
  intros HR HP. revert m. induction HP as [|x y l k Hxy _ IH]; intros m HQ.
  - inversion HQ. constructor.
  - inversion HQ as [|? z ? m' Hyz Hrest]; subst. constructor; eauto.
Qed.

(** A stored image is the image it was cast from, with an identifier. *)
Lemma castImages_spec owner imgs :
  Forall2 (λ img img', img_url img' = img_url img
                       ∧ img_altText img' = img_altText img
                       ∧ img_type img' = img_type img
                       ∧ truthy (img_id img') = true)
          imgs (castImages owner imgs).
Proof.
  apply imap_Forall2. intros k img. unfold castImage.
  destruct (truthy (img_id img)) eqn:Ht; [done|]. simpl.
  do 3 (split; [done|]). exact (imageId_truthy owner k).
Qed.

(** C4, as amended.  When an existing category is updated with uploaded
    files, the outward calls of the handler are one media-store deletion for
    each old image record that carries an identifier, in their order,
    followed by the persistence write.  When that write is accepted the
    stored images are built from the files alone, one per file in their
    order, with the path and the field name of the file and the altText of
    the request, each with an identifier of its own and nothing of the old
    sequence; when it is rejected the store is as it was. *)
Theorem update_replaces_images req w category fs :
  findById (params_id req) (categories w) = Some category →
  files req = Some fs → fs ≠ [] →
  let body' := set_images (body req) (imagesFromFiles req) in
  let new := applyUpdate body' category in
  calls (snd (updateCategory req w))
  = calls w ++ (cloudinary_destroy <$> assetIds (images category))
            ++ [Category_findByIdAndUpdate (params_id req) body']
  ∧ Some <$> assetIds (images category)
    = img_id <$> filter (λ img, truthy (img_id img) = true) (images category)
  ∧ Forall2 (λ file img, img_url img = path file ∧ img_type img = fieldname file)
            fs (imagesFromFiles req)
  ∧ Forall2 (λ file img, img_url img = path file
                         ∧ img_altText img = default "" (b_altText (body req))
                         ∧ img_type img = fieldname file
                         ∧ truthy (img_id img) = true)
            fs (images new)
  ∧ (validateUpdate body' = true →
     duplicateKeyUpdate body' new (categories w) = false →
     fst (updateCategory req w)
     = Returned (Response 200 "Category updated successfully" (p_category (Some new)))
     ∧ categories (snd (updateCategory req w))
       = replaceFirst (params_id req) new (categories w)
     ∧ findById (params_id req) (categories (snd (updateCategory req w)))
       = Some new)
  ∧ (validateUpdate body' = false
     ∨ duplicateKeyUpdate body' new (categories w) = true →
     categories (snd (updateCategory req w)) = categories w).
Proof.
  intros Hfind Hfiles Hne body' new.
  pose proof (hasFiles_Some _ _ Hfiles Hne) as Hhas.
  assert (∀ r, updateCategory req w = r →
            r = catchAsync (findByIdAndUpdate (params_id req) body' ≫= λ u,
                  mret (successResponse (p_category u)
                          "Category updated successfully" None))
                  (mkWorld (categories w) (users w)
                     (calls w ++ (cloudinary_destroy <$> assetIds (images category)))))
    as Hrun.
  { intros r <-.
    unfold updateCategory, catchAsync, reads, mbind, mret, Async_bind, Async_ret.
    rewrite Hfind, Hhas. simpl. rewrite destroyImages_run. done. }
  specialize (Hrun _ eq_refl).
  assert (Forall2 (λ file img, img_url img = path file
                               ∧ img_altText img = default "" (b_altText (body req))
                               ∧ img_type img = fieldname file)
                  fs (imagesFromFiles req)) as Hbuilt.
  { unfold imagesFromFiles. rewrite Hfiles. simpl.
    clear. induction fs as [|f fs IH]; constructor; done. }
  split; [|split; [apply assetIds_carried|split; [|split; [|split]]]].
  - rewrite Hrun.
    unfold catchAsync, findByIdAndUpdate, record, reads, writes, reject, mbind,
      mret, Async_bind, Async_ret. simpl.
    rewrite Hfind, <-app_assoc.
    destruct (validateUpdate body'); [|done].
    by destruct (duplicateKeyUpdate _ _ _).
  - eapply Forall2_impl; [exact Hbuilt|]. simpl. tauto.
  - unfold new, applyUpdate, body'. simpl.
    eapply Forall2_compose; [|exact Hbuilt|apply castImages_spec].
    simpl. intros f i i' (Hu & Ha & Ht) (-> & -> & -> & ->). done.
  - intros Hvalid Hdup. rewrite Hrun.
    unfold catchAsync, findByIdAndUpdate, record, reads, writes, reject, mbind,
      mret, Async_bind, Async_ret. simpl.
    rewrite Hfind, Hvalid. fold new. rewrite Hdup. simpl.
    split; [done|]. split; [done|].
    eapply findById_replaceFirst; [exact Hfind|].
    apply findById_Some in Hfind as [_ Hid]. done.
  - intros Hrej. rewrite Hrun.
    unfold catchAsync, findByIdAndUpdate, record, reads, writes, reject, mbind,
      mret, Async_bind, Async_ret. simpl.
    rewrite Hfind. fold new.
    destruct (validateUpdate body'); [|done].
    destruct Hrej as [?|Hdup]; [done|]. by rewrite Hdup.
Qed.

(** C8. NotFound is early and effect-free.  Updating or deleting a category
    or subcategory whose identifier matches no stored document, and fetching
    by a slug that matches none, hands an error with status 404 to the error
    middleware and leaves the world as it was: no call is issued and the
    store is unchanged. *)
Theorem not_found_is_effect_free req w :
  (findById (params_id req) (categories w) = None →
     updateCategory req w
     = (Returned (NextError (mkAppError "No category found with that ID" 404)), w)
     ∧ deleteCategory req w
       = (Returned (NextError (mkAppError "No category found with that ID" 404)), w)
     ∧ updateSubCategory req w
       = (Returned (NextError (mkAppError "No subcategory found with that ID" 404)), w)
     ∧ deleteSubCategory req w
       = (Returned (NextError (mkAppError "No subcategory found with that ID" 404)), w))
  ∧ (findOne_slug (params_slug req) (categories w) = None →
     ∀ fuel, getCategory fuel req w
             = (Returned (NextError (mkAppError "No category found with that slug" 404)),
                w)).
Proof.
  split.
  - intros Hnone.
    unfold updateCategory, deleteCategory, updateSubCategory, deleteSubCategory,
      catchAsync, reads, mbind, mret, Async_bind, Async_ret.
    by rewrite Hnone.
  - intros Hnone fuel.
    unfold getCategory, catchAsync, reads, mbind, mret, Async_bind, Async_ret.
    by rewrite Hnone.
Qed.

(** ** Creating *)

Lemma catchAsync_answer {A} (m : Async A) (f : A → Reply) w :
  catchAsync (m ≫= λ a, mret (f a)) w = (answer f (fst (m w)), snd (m w)).
Proof.
  unfold catchAsync, mbind, mret, Async_bind, Async_ret.
  by destruct (m w) as [[a|e|] w'].
Qed.

Section Creation.

Variable createSlug : string → string.

Lemma preSave_modified fuel st this :
  preSave createSlug fuel st true this
  = withSlug this
      <$> whileSlugExists createSlug fuel st (name this) (createSlug (name this))
            (findOne_slug (createSlug (name this)) st) 1.
Proof. unfold preSave. by destruct (whileSlugExists _ _ _ _ _ _ _). Qed.

(** Whatever the loop returns is free, and is the slug it started from or a
    suffixed candidate. *)
Lemma whileSlugExists_result st nm fuel : ∀ s count r,
  whileSlugExists createSlug fuel st nm s (findOne_slug s st) count = Some r →
  ¬ slugTaken st r
  ∧ (r = s ∨ ∃ k, count ≤ k ∧ r = suffixed (createSlug nm) k).
Proof.
  induction fuel as [|fuel IH]; intros s count r.
  - simpl. destruct (findOne_slug s st) eqn:Hs; [done|]. intros [= <-].
    split; [by apply findOne_slug_None|by left].
  - simpl. destruct (findOne_slug s st) eqn:Hs.
    + intros Hr. apply IH in Hr as [Hfree [->|(k & Hk & ->)]].
      * split; [done|]. right. exists count. done.
      * split; [done|]. right. exists k. split; [lia|done].
    + intros [= <-]. split; [by apply findOne_slug_None|by left].
Qed.

Lemma create_world fuel b w :
  users (snd (create createSlug fuel b w)) = users w
  ∧ calls (snd (create createSlug fuel b w)) = calls w ++ [Category_create b].
Proof.
  unfold create, record, reads, writes, reject, mbind, mret, Async_bind, Async_ret.
  simpl. destruct (newDocument _ b) as [doc|]; [|done].
  destruct (validate doc); [|done].
  destruct (preSave _ _ _ _ _) as [doc'|]; [|done].
  by destruct (duplicateKey doc' _).
Qed.

(** What a successful [Category.create] has done. *)
Lemma create_inv fuel b w doc w' :
  create createSlug fuel b w = (Returned doc, w') →
  ∃ this,
    newDocument (freshId (categories w)) b = Some this
    ∧ validate this = true
    ∧ preSave createSlug fuel (categories w) true this = Some doc
    ∧ categories w' = categories w ++ [doc].
Proof.
  unfold create, record, reads, writes, reject, mbind, mret, Async_bind, Async_ret.
  simpl. destruct (newDocument _ b) as [this|] eqn:Hnew; [|done].
  rewrite (bool_decide_eq_true_2 _ (newDocument_name _ _ _ Hnew)).
  destruct (validate this) eqn:Hvalid; [|done].
  destruct (preSave _ _ _ _ _) as [doc'|] eqn:Hpre; [|done].
  destruct (duplicateKey doc' _); [done|].
  intros [= <- <-]. by exists this.
Qed.

(** The body's [slug] has no part in [Category.create]. *)
Lemma create_slug_irrelevant fuel b s w :
  fst (create createSlug fuel (with_slug b s) w) = fst (create createSlug fuel b w)
  ∧ categories (snd (create createSlug fuel (with_slug b s) w))
    = categories (snd (create createSlug fuel b w)).
Proof.
  unfold create, record, reads, writes, reject, mbind, mret, Async_bind, Async_ret.
  simpl. unfold newDocument. simpl.
  destruct (b_name b) as [n|]; [|done]. simpl.
  destruct (b_createdBy b) as [u|]; [|done]. simpl.
  unfold validate. simpl.
  destruct (_ && _ && _); [|done].
  destruct (whileSlugExists _ _ _ _ _ _ _) as [sl|]; [|done]. simpl.
  by destruct (duplicateKey _ _).
Qed.

(** C10. Shared altText across a batch.  The image records built from the
    uploaded files of one request, one per file, all carry the same altText:
    the body's [altText], or the empty string when the body has none.  These
    are the images that the create and update handlers pass to the
    persistence layer. *)
Theorem uploaded_images_share_altText req fs :
  files req = Some fs → fs ≠ [] →
  let alt := default "" (b_altText (body req)) in
  let imgs := imagesFromFiles req in
  length imgs = length fs
  ∧ Forall (λ img, img_altText img = alt) imgs
  ∧ (∀ fuel w, ∃ b,
       calls (snd (createCategory createSlug fuel req w))
       = calls w ++ [Category_create b] ∧ b_images b = Some imgs)
  ∧ (∀ fuel w, ∃ b,
       calls (snd (createSubCategory createSlug fuel req w))
       = calls w ++ [Category_create b] ∧ b_images b = Some imgs)
  ∧ (∀ w c, findById (params_id req) (categories w) = Some c →
       ∃ b, last (calls (snd (updateCategory req w)))
            = Some (Category_findByIdAndUpdate (params_id req) b)
            ∧ b_images b = Some imgs)
  ∧ (∀ w c, findById (params_id req) (categories w) = Some c →
       ∃ b, last (calls (snd (updateSubCategory req w)))
            = Some (Category_findByIdAndUpdate (params_id req) b)
            ∧ b_images b = Some imgs).
Proof.
  intros Hfiles Hne alt imgs.
  pose proof (hasFiles_Some _ _ Hfiles Hne) as Hhas.
  split; [|split; [|split; [|split; [|split]]]].
  - unfold imgs, imagesFromFiles. by rewrite Hfiles, length_fmap.
  - unfold imgs, imagesFromFiles. apply Forall_fmap, Forall_forall. done.
  - intros fuel w. unfold createCategory. rewrite Hhas.
    eexists. rewrite catchAsync_answer. simpl.
    split; [apply create_world|done].
  - intros fuel w. unfold createSubCategory. rewrite Hhas.
    eexists. rewrite catchAsync_answer. simpl.
    split; [apply create_world|done].
  - intros w c Hc. exists (set_images (body req) imgs). split; [|done].
    unfold updateCategory, catchAsync, reads, mbind, mret, Async_bind, Async_ret.
    rewrite Hc, Hhas. simpl. rewrite destroyImages_run.
    unfold findByIdAndUpdate, record, reads, writes, reject, mbind, mret,
      Async_bind, Async_ret. simpl. rewrite Hc.
    destruct (validateUpdate _); [destruct (duplicateKeyUpdate _ _ _)|];
      simpl; by rewrite last_snoc.
  - intros w c Hc. exists (set_images (body req) imgs). split; [|done].
    unfold updateSubCategory, catchAsync, reads, mbind, mret, Async_bind, Async_ret.
    rewrite Hc, Hhas. simpl. rewrite destroyImages_run.
    unfold findByIdAndUpdate, record, reads, writes, reject, mbind, mret,
      Async_bind, Async_ret. simpl. rewrite Hc.
    destruct (validateUpdate _); [destruct (duplicateKeyUpdate _ _ _)|];
      simpl; by rewrite last_snoc.
Qed.

(** C6, as amended.  On creation the slug in the request body has no effect:
    two runs that differ only in that field answer alike and leave the same
    store, and the slug of the stored document is the one the save hook
    derives from the name: free in the store, and the slugified name or the
    slugified name with a numeric suffix. *)
Theorem create_ignores_supplied_slug fuel req s w :
  (fst (createCategory createSlug fuel (set_slug req s) w)
   = fst (createCategory createSlug fuel req w)
   ∧ categories (snd (createCategory createSlug fuel (set_slug req s) w))
     = categories (snd (createCategory createSlug fuel req w)))
  ∧ (fst (createSubCategory createSlug fuel (set_slug req s) w)
     = fst (createSubCategory createSlug fuel req w)
     ∧ categories (snd (createSubCategory createSlug fuel (set_slug req s) w))
       = categories (snd (createSubCategory createSlug fuel req w)))
  ∧ (∀ doc,
       fst (createCategory createSlug fuel req w)
       = Returned (Response 201 "Category created successfully" (p_category (Some doc))) →
       categories (snd (createCategory createSlug fuel req w)) = categories w ++ [doc]
       ∧ ∃ sl, slug doc = Some sl
               ∧ ¬ slugTaken (categories w) sl
               ∧ (sl = createSlug (name doc)
                  ∨ ∃ k, 1 ≤ k ∧ sl = suffixed (createSlug (name doc)) k)).
Proof.
  split; [|split].
  - unfold createCategory. rewrite !catchAsync_answer. simpl.
    change (hasFiles (set_slug req s)) with (hasFiles req).
    change (imagesFromFiles (set_slug req s)) with (imagesFromFiles req).
    destruct (hasFiles req).
    + destruct (create_slug_irrelevant fuel
                  (set_createdBy (set_images (body req) (imagesFromFiles req)) (user req))
                  s w) as [Hfst Hsnd].
      split; [by rewrite <-Hfst|by rewrite <-Hsnd].
    + destruct (create_slug_irrelevant fuel (set_createdBy (body req) (user req)) s w)
        as [Hfst Hsnd].
      split; [by rewrite <-Hfst|by rewrite <-Hsnd].
  - unfold createSubCategory. rewrite !catchAsync_answer. simpl.
    change (hasFiles (set_slug req s)) with (hasFiles req).
    change (imagesFromFiles (set_slug req s)) with (imagesFromFiles req).
    destruct (hasFiles req).
    + destruct (create_slug_irrelevant fuel
                  (set_images (set_createdBy (set_parent (body req) (params_parentId req))
                                 (user req)) (imagesFromFiles req))
                  s w) as [Hfst Hsnd].
      split; [by rewrite <-Hfst|by rewrite <-Hsnd].
    + destruct (create_slug_irrelevant fuel
                  (set_createdBy (set_parent (body req) (params_parentId req)) (user req))
                  s w) as [Hfst Hsnd].
      split; [by rewrite <-Hfst|by rewrite <-Hsnd].
  - intros doc. unfold createCategory. rewrite catchAsync_answer. simpl.
    destruct (create _ _ _ _) as [[d| |] w'] eqn:Hcreate; simpl; [|done..].
    intros [= ->]. apply create_inv in Hcreate as (this & _ & _ & Hpre & Hst).
    split; [done|].
    rewrite preSave_modified in Hpre.
    destruct (whileSlugExists _ _ _ _ _ _ _) as [sl|] eqn:Hloop; [|done].
    injection Hpre as <-. exists sl. split; [done|].
    apply whileSlugExists_result in Hloop as [Hfree Hshape]. simpl. tauto.
Qed.

End Creation.

(** ** Listing subcategories *)

Lemma find_by_parent pid st :
  find (mkFilter (Some (Some pid)) None) st = filter (λ c, parent c = Some pid) st.
Proof.
  unfold find. apply list_filter_iff. intros c. unfold matches. simpl.
  rewrite andb_true_r, bool_decide_eq_true. done.
Qed.

Section Listing.

Context {features : APIFeatures}.

(** C9. Filtered subcategory listing and count.  With a parent id in the
    query, the listing answers with stored documents whose parent is that
    id, and the total it reports is the number of stored documents with that
    parent, whatever page and page size are asked for. *)
Theorem filtered_listing_and_count req w pid :
  q_parentId (query req) = Some pid →
  ∃ subs pg,
    getAllSubCategories req w
    = (Returned (Response 200 "Subcategories fetched successfully"
                          (p_subCategories subs pg)), w)
    ∧ Forall (λ s, l_doc s ∈ categories w ∧ parent (l_doc s) = Some pid) subs
    ∧ pg_total pg = length (filter (λ c, parent c = Some pid) (categories w))
    ∧ ∀ page limit, ∃ subs' pg',
        getAllSubCategories (set_page req page limit) w
        = (Returned (Response 200 "Subcategories fetched successfully"
                              (p_subCategories subs' pg')), w)
        ∧ pg_total pg' = pg_total pg.
Proof.
  intros Hpid.
  unfold getAllSubCategories, catchAsync, reads, successResponse, countDocuments,
    mbind, mret, Async_bind, Async_ret.
  simpl. rewrite Hpid. simpl. rewrite find_by_parent.
  eexists _, _. split; [done|]. split; [|split].
  - apply Forall_forall. intros s Hs.
    eapply elem_of_sublist in Hs; [|apply paginate_sublist].
    rewrite sort_Permutation in Hs.
    apply list_elem_of_fmap in Hs as (c & -> & Hc).
    apply list_elem_of_filter in Hc as [? ?]. done.
  - by rewrite pagination_total.
  - intros page limit. eexists _, _. split; [done|].
    by rewrite !pagination_total.
Qed.

End Listing.

(** ** Concrete runs *)

(** A store is acyclic when some rank decreases along every parent link. *)
Lemma acyclic_by_rank st (rank : ObjectId → nat) :
  Forall (λ d, from_option (λ p, rank p < rank (_id d)) True (parent d)) st →
  acyclic st.
Proof.
  intros Hrank.
  assert (∀ c p, tc (parentLink st) c p → rank p < rank c) as Hlt.
  { induction 1 as [c p (d & Hd & <- & Hp)|c y p (d & Hd & <- & Hp) _ IH].
    - rewrite Forall_forall in Hrank. specialize (Hrank d Hd).
      by rewrite Hp in Hrank.
    - rewrite Forall_forall in Hrank. specialize (Hrank d Hd).
      rewrite Hp in Hrank. simpl in Hrank. lia. }
  intros i Hi. apply Hlt in Hi. lia.
Qed.

Lemma catalogue_acyclic : acyclic (categories catalogue).
Proof.
  apply (acyclic_by_rank _ (λ i, i)). repeat constructor.
Qed.

Lemma catalogue_ids : NoDup (_id <$> categories catalogue).
Proof. apply (bool_decide_unpack _). by vm_compute. Qed.

Example create_three_shoes :
  let create name w :=
    snd (createCategory slugify 4
           (mkRequest 0 "" 0 (mkBody (Some name) None None None None None None)
                      None 7 noQuery) w) in
  slug <$> categories (create "SHOES!" (create "shoes" (create "Shoes"
             (mkWorld [] [ann] []))))
  = [Some "shoes"; Some "shoes-1"; Some "shoes-2"].
Proof. by vm_compute. Qed.

Example fetch_shoes :
  getCategory 3 plainRequest catalogue
  = (Returned
       (Response 200 "Category fetched successfully with nested children"
          (p_category_tree
             (mkNode shoes (Some ann)
                (Some [mkNode boots (Some ann)
                         (Some [mkNode laces (Some ann) (Some [])])])))),
     catalogue).
Proof. by vm_compute. Qed.

(** C1, at the catalogue: a new document named SHOES, whose slugified name
    is taken, and its creation. *)
Lemma slug_assigned_at_creation_witness :
  length (categories catalogue) < 4
  ∧ ∃ s, preSave slugify 4 (categories catalogue) true shoesAgain
         = Some (withSlug shoesAgain s)
       ∧ ¬ slugTaken (categories catalogue) s
       ∧ (slugTaken (categories catalogue) (slugify (name shoesAgain)) →
          ∃ k, 1 ≤ k ∧ s = suffixed (slugify (name shoesAgain)) k
               ∧ ∀ j, 1 ≤ j < k →
                   slugTaken (categories catalogue)
                     (suffixed (slugify (name shoesAgain)) j))
       ∧ create slugify 4 (mkBody (Some "SHOES") None None None None None (Some 7))
           catalogue
         = (Returned (withSlug shoesAgain s),
            mkWorld (categories catalogue ++ [withSlug shoesAgain s]) [ann]
              [Category_create
                 (mkBody (Some "SHOES") None None None None None (Some 7))]).
Proof.
  assert (length (categories catalogue) < 4) as Hfuel by (simpl; lia).
  split; [exact Hfuel|].
  destruct (slug_assigned_at_creation slugify 4 (categories catalogue) shoesAgain Hfuel)
    as (s & Hpre & Hfree & _ & Hcoll & Hcreate).
  exists s. split; [exact Hpre|]. split; [exact Hfree|]. split; [exact Hcoll|].
  apply (Hcreate (mkBody (Some "SHOES") None None None None None (Some 7)) catalogue).
  - reflexivity.
  - reflexivity.
  - reflexivity.
  - intros d Hd. simpl in Hd.
    repeat (apply elem_of_cons in Hd as [->|Hd]; [discriminate|]).
    by apply not_elem_of_nil in Hd.
Defined.

(** C2, at the catalogue: fetching the category with the slug [shoes]. *)
Lemma getCategory_expands_subtree_witness :
  NoDup (_id <$> categories catalogue)
  ∧ acyclic (categories catalogue)
  ∧ findOne_slug (params_slug plainRequest) (categories catalogue) = Some shoes
  ∧ ∃ t,
      getCategory 5 plainRequest catalogue
      = (Returned (Response 200 "Category fetched successfully with nested children"
                            (p_category_tree t)), catalogue)
      ∧ n_doc t = shoes
      ∧ NoDup (n_doc <$> nested t)
      ∧ (∀ x, x ∈ n_doc <$> nested t ↔ descendantOf (categories catalogue) shoes x)
      ∧ Forall (λ k, n_createdBy k = findUser (createdBy (n_doc k)) (users catalogue))
               (nested t).
Proof.
  assert (findOne_slug (params_slug plainRequest) (categories catalogue) = Some shoes)
    as Hfind by reflexivity.
  split; [exact catalogue_ids|]. split; [exact catalogue_acyclic|].
  split; [exact Hfind|].
  destruct (getCategory_expands_subtree plainRequest catalogue shoes
              catalogue_ids catalogue_acyclic Hfind)
    as (t & Hrun & Hroot & _ & Hnodup & Hiff & _ & Hcreators & _).
  exists t. split; [apply Hrun; simpl; lia|].
  split; [exact Hroot|]. split; [exact Hnodup|]. split; [exact Hiff|exact Hcreators].
Defined.

(** C3, at the catalogue: expanding from its root. *)
Lemma expansion_terminates_witness :
  acyclic (categories catalogue)
  ∧ (∃ t, ∀ fuel, 5 ≤ fuel →
       populateChildrenRecursively fuel (categories catalogue) (users catalogue)
         (populateCreatedBy (users catalogue) shoes) = Some t).
Proof.
  split; [exact catalogue_acyclic|].
  exact (proj1 (expansion_terminates (categories catalogue) (users catalogue)
                  (populateCreatedBy (users catalogue) shoes) catalogue_acyclic)).
Defined.

(** Without acyclicity there is no such fuel. *)
Example expansion_of_a_loop :
  ∀ fuel, populateChildrenRecursively fuel [loop] [ann] (populateCreatedBy [ann] loop)
          = None.
Proof.
  intros fuel. apply (populate_self_parent [loop] [ann] loop); [left|done|done].
Qed.

(** C4 as amended, at the catalogue: two files uploaded for document 1. *)
Lemma update_replaces_images_witness :
  findById (params_id uploadRequest) (categories catalogue) = Some shoes
  ∧ files uploadRequest
    = Some [mkFile "uploads/a.png" "banner"; mkFile "uploads/b.png" "gallery"]
  ∧ [mkFile "uploads/a.png" "banner"; mkFile "uploads/b.png" "gallery"] ≠ []
  ∧ calls (snd (updateCategory uploadRequest catalogue))
    = [cloudinary_destroy "shoes-banner";
       Category_findByIdAndUpdate 1
         (set_images (body uploadRequest) (imagesFromFiles uploadRequest))]
  ∧ (images <$> findById 1 (categories (snd (updateCategory uploadRequest catalogue))))
    = Some [mkImage "uploads/a.png" "Red shoes" "banner" (Some "image-1-0");
            mkImage "uploads/b.png" "Red shoes" "gallery" (Some "image-1-1")].
Proof.
  assert (findById (params_id uploadRequest) (categories catalogue) = Some shoes)
    as Hfind by reflexivity.
  assert ([mkFile "uploads/a.png" "banner"; mkFile "uploads/b.png" "gallery"] ≠ [])
    as Hne by discriminate.
  split; [exact Hfind|]. split; [reflexivity|]. split; [exact Hne|].
  destruct (update_replaces_images uploadRequest catalogue shoes _ Hfind eq_refl Hne)
    as (Hcalls & _ & _ & _ & Hstored & _).
  split; [exact Hcalls|].
  destruct Hstored as (_ & _ & Hnew); [reflexivity|reflexivity|].
  exact (f_equal (fmap images) Hnew).
Defined.

(** C4, as stated, fails when the write is rejected: an update of document 1
    of the catalogue that uploads one file and renames the document to
    [Boots], a name that is taken, is rejected by the unique index after the
    old image has been deleted from the media store, and the stored images
    are the old two, not the one built from the file. *)
Lemma update_rejected_keeps_old_images :
  let req := mkRequest 1 "shoes" 1
               (mkBody (Some "Boots") None None None None None None)
               (Some [mkFile "uploads/a.png" "banner"]) 7 noQuery in
  let w' := snd (updateCategory req catalogue) in
  fst (updateCategory req catalogue) = Returned (NextThrown DuplicateKey)
  ∧ calls w'
    = [cloudinary_destroy "shoes-banner";
       Category_findByIdAndUpdate 1 (set_images (body req) (imagesFromFiles req))]
  ∧ (images <$> findById 1 (categories w')) = Some (images shoes)
  ∧ length (images shoes) ≠ length (imagesFromFiles req)
  ∧ img_url <$> images shoes ≠ img_url <$> imagesFromFiles req.
Proof.
  intros req w'.
  split; [by vm_compute|]. split; [by vm_compute|]. split; [by vm_compute|].
  split; by vm_compute.
Qed.

(** C8, at the catalogue: a request for document 99 and the slug [hats]. *)
Lemma not_found_is_effect_free_witness :
  findById (params_id strayRequest) (categories catalogue) = None
  ∧ findOne_slug (params_slug strayRequest) (categories catalogue) = None
  ∧ updateCategory strayRequest catalogue
    = (Returned (NextError (mkAppError "No category found with that ID" 404)),
       catalogue)
  ∧ deleteCategory strayRequest catalogue
    = (Returned (NextError (mkAppError "No category found with that ID" 404)),
       catalogue)
  ∧ getCategory 0 strayRequest catalogue
    = (Returned (NextError (mkAppError "No category found with that slug" 404)),
       catalogue).
Proof.
  split; [reflexivity|]. split; [reflexivity|].
  destruct (not_found_is_effect_free strayRequest catalogue) as [Hid Hslug].
  destruct (Hid eq_refl) as (Hupdate & Hdelete & _).
  split; [exact Hupdate|]. split; [exact Hdelete|exact (Hslug eq_refl 0)].
Defined.

(** C9, at the catalogue: the subcategories of document 1, ten to a page. *)
Lemma filtered_listing_and_count_witness :
  q_parentId (query listRequest) = Some 1
  ∧ ∃ subs pg,
      @getAllSubCategories skipLimit listRequest catalogue
      = (Returned (Response 200 "Subcategories fetched successfully"
                            (p_subCategories subs pg)), catalogue)
      ∧ Forall (λ s, l_doc s ∈ categories catalogue ∧ parent (l_doc s) = Some 1) subs
      ∧ pg_total pg = length (filter (λ c, parent c = Some 1) (categories catalogue)).
Proof.
  split; [reflexivity|].
  destruct (@filtered_listing_and_count skipLimit listRequest catalogue 1 eq_refl)
    as (subs & pg & Hrun & Hall & Htotal & _).
  exists subs, pg. split; [exact Hrun|]. split; [exact Hall|exact Htotal].
Defined.

(** C10, at the catalogue: two files and the altText [Red shoes]. *)
Lemma uploaded_images_share_altText_witness :
  files uploadRequest
  = Some [mkFile "uploads/a.png" "banner"; mkFile "uploads/b.png" "gallery"]
  ∧ [mkFile "uploads/a.png" "banner"; mkFile "uploads/b.png" "gallery"] ≠ []
  ∧ length (imagesFromFiles uploadRequest) = 2
  ∧ Forall (λ img, img_altText img = "Red shoes") (imagesFromFiles uploadRequest).
Proof.
  assert ([mkFile "uploads/a.png" "banner"; mkFile "uploads/b.png" "gallery"] ≠ [])
    as Hne by discriminate.
  split; [reflexivity|]. split; [exact Hne|].
  destruct (uploaded_images_share_altText slugify uploadRequest _ eq_refl Hne)
    as (Hlen & Halt & _).
  split; [exact Hlen|exact Halt].
Defined.

(** C5, on the code: renaming document 1 of the catalogue to [Trainers]
    through the update handler stores the new name with the old slug
    [shoes], where the name-to-slug transformation gives [trainers]. *)
Theorem update_rename_keeps_slug :
  fst (updateCategory renameRequest catalogue)
  = Returned (Response 200 "Category updated successfully"
       (p_category (Some (mkCategory 1 "Trainers" (Some "shoes") "mega" None
                            (images shoes) 7))))
  ∧ findById 1 (categories (snd (updateCategory renameRequest catalogue)))
    = Some (mkCategory 1 "Trainers" (Some "shoes") "mega" None (images shoes) 7)
  ∧ slugify "Trainers" = "trainers"
  ∧ ¬ slugTaken (categories catalogue) "trainers".
Proof.
  split; [by vm_compute|]. split; [by vm_compute|]. split; [by vm_compute|].
  intros (c & Hc & Hs). simpl in Hc.
  repeat (apply elem_of_cons in Hc as [->|Hc]; [by simplify_eq/=|]).
  by apply not_elem_of_nil in Hc.
Qed.

(** C6, as stated, fails on update: two update requests for document 1 of
    the catalogue that differ only in the body's slug store two different
    slugs, each the one supplied. *)
Lemma update_stores_supplied_slug :
  (slug <$> findById 1 (categories
     (snd (updateCategory (set_slug plainRequest (Some "sandals")) catalogue))))
  = Some (Some "sandals")
  ∧ (slug <$> findById 1 (categories
       (snd (updateCategory (set_slug plainRequest (Some "clogs")) catalogue))))
    = Some (Some "clogs")
  ∧ categories (snd (updateCategory (set_slug plainRequest (Some "sandals")) catalogue))
    ≠ categories (snd (updateCategory (set_slug plainRequest (Some "clogs")) catalogue)).
Proof.
  split; [by vm_compute|]. split; [by vm_compute|]. by vm_compute.
Qed.

(** C7, on the code: listing subcategories of the catalogue with no parent
    filter answers with all three documents, the top-level category [shoes],
    whose parent is null, among them. *)
Theorem listing_returns_top_level :
  @getAllSubCategories skipLimit plainRequest catalogue
  = (Returned (Response 200 "Subcategories fetched successfully"
       (p_subCategories
          [mkListed shoes (Some ann) None;
           mkListed boots (Some ann) (Some shoes);
           mkListed laces (Some ann) (Some boots)]
          (mkPagination 3 1 10))), catalogue)
  ∧ q_parentId (query plainRequest) = None
  ∧ parent shoes = None.
Proof. split; [by vm_compute|done]. Qed.

(** C6 as amended, at the catalogue: creating [Sandals] with and without a
    slug in the body. *)
Lemma create_ignores_supplied_slug_witness :
  let req := mkRequest 0 "" 0 (mkBody (Some "Sandals") None None None None None None)
               None 7 noQuery in
  let sandals := mkCategory 4 "Sandals" (Some "sandals") "normal" None [] 7 in
  fst (createCategory slugify 4 (set_slug req (Some "my-own-slug")) catalogue)
  = fst (createCategory slugify 4 req catalogue)
  ∧ categories (snd (createCategory slugify 4 (set_slug req (Some "my-own-slug"))
                       catalogue))
    = categories (snd (createCategory slugify 4 req catalogue))
  ∧ fst (createCategory slugify 4 req catalogue)
    = Returned (Response 201 "Category created successfully" (p_category (Some sandals)))
  ∧ categories (snd (createCategory slugify 4 req catalogue))
    = categories catalogue ++ [sandals].
Proof.
  intros req sandals.
  destruct (create_ignores_supplied_slug slugify 4 req (Some "my-own-slug") catalogue)
    as ((Hreply & Hstore) & _ & Hderived).
  assert (fst (createCategory slugify 4 req catalogue)
          = Returned (Response 201 "Category created successfully"
                               (p_category (Some sandals)))) as Hrun
    by reflexivity.
  split; [exact Hreply|]. split; [exact Hstore|]. split; [exact Hrun|].
  exact (proj1 (Hderived sandals Hrun)).
Defined.

Example create_sandals_with_own_slug :
  slug <$> categories
    (snd (createCategory slugify 4
            (mkRequest 0 "" 0
               (mkBody (Some "Sandals") (Some "my-own-slug") None None None None None)
               None 7 noQuery) catalogue))
  = [Some "shoes"; Some "boots"; Some "laces"; Some "sandals"].
Proof. by vm_compute. Qed.

(** ** Writes to the store *)

(** The document [findById] returns is the first with that identifier; a
    replacement puts the new document in its place and a deletion closes
    the gap. *)
Lemma findById_split id st old new :
  findById id st = Some old →
  ∃ l1 l2,
    st = l1 ++ old :: l2
    ∧ (∀ d, d ∈ l1 → _id d ≠ id)
    ∧ _id old = id
    ∧ replaceFirst id new st = l1 ++ new :: l2
    ∧ deleteFirst id st = l1 ++ l2.
Proof.
  unfold findById. induction st as [|c st IH]; [done|].
  rewrite filter_cons. simpl. destruct (decide (_id c = id)) as [Hc|Hc].
  - intros [= ->]. exists [], st. split; [done|]. split; [|done].
    intros d Hd. by apply not_elem_of_nil in Hd.
  - intros Hold. destruct (IH Hold) as (l1 & l2 & -> & Hl1 & Hid & Hrep & Hdel).
    exists (c :: l1), l2. split; [done|]. split.
    { intros d [->|Hd]%elem_of_cons; [done|by apply Hl1]. }
    split; [done|]. rewrite Hrep, Hdel. done.
Qed.

Lemma findById_None id st : findById id st = None ↔ ∀ d, d ∈ st → _id d ≠ id.
Proof.
  unfold findById. rewrite head_None. split.
  - intros Hnil d Hd Hid.
    assert (d ∈ filter (λ c, _id c = id) st) as Hin
      by (by apply list_elem_of_filter).
    rewrite Hnil in Hin. by apply not_elem_of_nil in Hin.
  - intros Hall. destruct (filter _ st) as [|c l] eqn:Hf; [done|]. exfalso.
    assert (c ∈ filter (λ c, _id c = id) st) as Hin by (rewrite Hf; left).
    apply list_elem_of_filter in Hin as [? ?]. by eapply Hall.
Qed.

Lemma deleteCategory_run req w category :
  findById (params_id req) (categories w) = Some category →
  deleteCategory req w
  = (Returned (Response 204 "Category deleted successfully" p_null),
     mkWorld (deleteFirst (params_id req) (categories w)) (users w)
       (calls w ++ (cloudinary_destroy <$> assetIds (images category))
                ++ [Category_findByIdAndDelete (params_id req)])).
Proof.
  intros Hfind.
  unfold deleteCategory, catchAsync, reads, mbind, mret, Async_bind, Async_ret.
  rewrite Hfind. simpl. rewrite destroyImages_run.
  unfold findByIdAndDelete, record, reads, writes, mbind, Async_bind. simpl.
  by rewrite <-app_assoc.
Qed.

(** X1. Deleting an existing category or subcategory issues one media-store
    deletion for each of its images that carries an identifier, in their
    order, then the persistence deletion, and answers 204 with no payload;
    the store loses exactly the addressed document and keeps the others in
    their order. *)
Theorem delete_existing req w category :
  findById (params_id req) (categories w) = Some category →
  let calls' := calls w ++ (cloudinary_destroy <$> assetIds (images category))
                        ++ [Category_findByIdAndDelete (params_id req)] in
  (∃ l1 l2,
     categories w = l1 ++ category :: l2
     ∧ deleteCategory req w
       = (Returned (Response 204 "Category deleted successfully" p_null),
          mkWorld (l1 ++ l2) (users w) calls')
     ∧ deleteSubCategory req w
       = (Returned (Response 204 "Subcategory deleted successfully" p_null),
          mkWorld (l1 ++ l2) (users w) calls')).
Proof.
  intros Hfind calls'.
  destruct (findById_split _ _ _ category Hfind) as (l1 & l2 & Hst & _ & _ & _ & Hdel).
  exists l1, l2. split; [done|]. rewrite <-Hdel. split.
  - by apply deleteCategory_run.
  - unfold deleteSubCategory, catchAsync, reads, mbind, mret, Async_bind, Async_ret.
    rewrite Hfind. simpl. rewrite destroyImages_run.
    unfold findByIdAndDelete, record, reads, writes, mbind, Async_bind. simpl.
    unfold calls'. by rewrite <-app_assoc.
Qed.

(** X2. After a category of a store with distinct identifiers is deleted, no
    document has its identifier, so deleting or updating it again answers
    404 and changes nothing; its stored children are not deleted with it:
    each is still stored, with its parent pointing at the deleted
    identifier. *)
Theorem delete_then_not_found req w category :
  NoDup (_id <$> categories w) →
  findById (params_id req) (categories w) = Some category →
  let w' := snd (deleteCategory req w) in
  findById (params_id req) (categories w') = None
  ∧ deleteCategory req w'
    = (Returned (NextError (mkAppError "No category found with that ID" 404)), w')
  ∧ updateCategory req w'
    = (Returned (NextError (mkAppError "No category found with that ID" 404)), w')
  ∧ (∀ d, d ∈ childrenOf (categories w) category → d ≠ category →
       d ∈ categories w' ∧ parent d = Some (params_id req)).
Proof.
  intros Hnd Hfind w'.
  assert (categories w' = deleteFirst (params_id req) (categories w)) as Hst
    by (unfold w'; by rewrite (deleteCategory_run _ _ _ Hfind)).
  destruct (findById_split _ _ _ category Hfind) as (l1 & l2 & Hw & Hl1 & Hid & _ & Hdel).
  assert (findById (params_id req) (categories w') = None) as Hgone.
  { apply findById_None. rewrite Hst, Hdel. intros d Hd Hdid.
    rewrite Hw, fmap_app, fmap_cons in Hnd.
    apply NoDup_app in Hnd as (_ & Hdisj & Hnd2).
    apply NoDup_cons in Hnd2 as [Hnot _].
    apply elem_of_app in Hd as [Hd|Hd].
    - by apply (Hl1 d).
    - apply Hnot. rewrite Hid, <-Hdid. by apply list_elem_of_fmap_2. }
  split; [done|]. split; [|split].
  - unfold deleteCategory, catchAsync, reads, mbind, mret, Async_bind, Async_ret.
    by rewrite Hgone.
  - unfold updateCategory, catchAsync, reads, mbind, mret, Async_bind, Async_ret.
    by rewrite Hgone.
  - intros d Hd Hne. apply list_elem_of_filter in Hd as [Hp Hd].
    rewrite <-Hid. split; [|done]. rewrite Hst, Hdel. rewrite Hw in Hd.
    apply elem_of_app in Hd as [Hd|Hd]; [apply elem_of_app; by left|].
    apply elem_of_cons in Hd as [->|Hd]; [done|]. apply elem_of_app. by right.
Qed.

Lemma freshId_fresh st d : d ∈ st → _id d ≠ freshId st.
Proof.
  intros Hd. unfold freshId.
  assert (_id d ≤ max_list (_id <$> st)); [|lia].
  apply max_list_elem_of_le. by apply list_elem_of_fmap_2.
Qed.

Lemma duplicateKey_true c st :
  duplicateKey c st = true → ∃ d, d ∈ st ∧ (name d = name c ∨ slug d = slug c).
Proof.
  unfold duplicateKey. intros (d & Hd & Hdup)%existsb_exists.
  apply list_elem_of_In in Hd. exists d. split; [done|].
  apply orb_true_iff in Hdup as [?%bool_decide_eq_true|?%bool_decide_eq_true]; auto.
Qed.

Lemma duplicateKey_false_inv c st d :
  duplicateKey c st = false → d ∈ st → name d ≠ name c ∧ slug d ≠ slug c.
Proof.
  unfold duplicateKey. intros Hdup Hd.
  assert (¬ (bool_decide (name d = name c) || bool_decide (slug d = slug c))) as Hno.
  { intros Hyes. apply not_true_iff_false in Hdup. apply Hdup.
    apply existsb_exists. exists d. split; [by apply list_elem_of_In|].
    by apply Is_true_true. }
  split; intros Heq; apply Hno, Is_true_true, orb_true_iff;
    [left|right]; by apply bool_decide_eq_true.
Qed.

Section CreationFacts.

Variable createSlug : string → string.

(** With fuel beyond the size of the store the hook ends, on a free slug. *)
Lemma preSave_total fuel st this :
  length st < fuel →
  ∃ s, preSave createSlug fuel st true this = Some (withSlug this s)
       ∧ ¬ slugTaken st s.
Proof.
  intros Hfuel. rewrite preSave_modified.
  set (base := createSlug (name this)).
  destruct (findOne_slug base st) as [e|] eqn:Hfind.
  - destruct (least_free_suffix st base (S (length st)) 1
                (free_suffix_within st base)) as (k & Hk & Hfree & Hbelow).
    exists (suffixed base k).
    rewrite (whileSlugExists_first_free createSlug st (name this) fuel 1 k base e);
      [done|lia|done|done].
  - exists base. rewrite whileSlugExists_free.
    split; [done|]. by apply findOne_slug_None.
Qed.

Lemma preSave_inv fuel st this doc :
  preSave createSlug fuel st true this = Some doc →
  ∃ s, doc = withSlug this s ∧ ¬ slugTaken st s.
Proof.
  rewrite preSave_modified.
  destruct (whileSlugExists _ _ _ _ _ _ _) as [s|] eqn:Hloop; [|done].
  intros [= <-]. exists s. split; [done|].
  by apply whileSlugExists_result in Hloop as [? _].
Qed.

(** The four ways [Category.create] can go. *)
Lemma create_cases fuel b w :
  let st := categories w in
  let r := create createSlug fuel b w in
  (fst r = Rejected ValidationError ∧ categories (snd r) = st
   ∧ (newDocument (freshId st) b = None
      ∨ ∃ this, newDocument (freshId st) b = Some this ∧ validate this = false))
  ∨ (fst r = OutOfFuel ∧ categories (snd r) = st
     ∧ ∃ this, newDocument (freshId st) b = Some this
               ∧ preSave createSlug fuel st true this = None)
  ∨ (fst r = Rejected DuplicateKey ∧ categories (snd r) = st
     ∧ ∃ this doc, newDocument (freshId st) b = Some this
                   ∧ validate this = true
                   ∧ preSave createSlug fuel st true this = Some doc
                   ∧ duplicateKey doc st = true)
  ∨ (∃ this doc, fst r = Returned doc ∧ categories (snd r) = st ++ [doc]
                 ∧ newDocument (freshId st) b = Some this
                 ∧ validate this = true
                 ∧ preSave createSlug fuel st true this = Some doc
                 ∧ duplicateKey doc st = false).
Proof.
  intros st r. unfold r, create, record, reads, writes, reject, mbind, mret,
    Async_bind, Async_ret. simpl. fold st.
  destruct (newDocument (freshId st) b) as [this|] eqn:Hnew; [|left; auto].
  rewrite (bool_decide_eq_true_2 _ (newDocument_name _ _ _ Hnew)).
  destruct (validate this) eqn:Hvalid; [|left; eauto 6].
  destruct (preSave _ _ _ _ _) as [doc|] eqn:Hpre; [|right; left; eauto].
  destruct (duplicateKey doc st) eqn:Hdup.
  - right; right; left. split; [done|]. split; [done|]. by exists this, doc.
  - right; right; right. exists this, doc. done.
Qed.

(** A valid document with a new name is stored. *)
Lemma create_accepts fuel b w this :
  length (categories w) < fuel →
  newDocument (freshId (categories w)) b = Some this →
  validate this = true →
  (∀ d, d ∈ categories w → name d ≠ name this) →
  ∃ s, fst (create createSlug fuel b w) = Returned (withSlug this s)
       ∧ categories (snd (create createSlug fuel b w))
         = categories w ++ [withSlug this s]
       ∧ ¬ slugTaken (categories w) s.
Proof.
  intros Hfuel Hnew Hvalid Hname.
  destruct (preSave_total fuel (categories w) this Hfuel) as (s & Hpre & Hfree).
  exists s.
  unfold create, record, reads, writes, reject, mbind, mret, Async_bind, Async_ret.
  simpl. rewrite Hnew, Hvalid.
  rewrite (bool_decide_eq_true_2 _ (newDocument_name _ _ _ Hnew)), Hpre.
  rewrite duplicateKey_false; [done|done| |by eexists].
  simpl. by intros ? [= <-].
Qed.

End CreationFacts.

Lemma newDocument_inv oid b this :
  newDocument oid b = Some this →
  ∃ n u, b_name b = Some n ∧ b_createdBy b = Some u
         ∧ this = mkCategory oid (trim n) (b_slug b) (default "normal" (b_type b))
                    (default None (b_parent b))
                    (castImages oid (default [] (b_images b))) u.
Proof.
  unfold newDocument. destruct (b_name b) as [n|]; [|done].
  destruct (b_createdBy b) as [u|]; [|done]. simpl. intros [= <-]. eauto.
Qed.

Lemma findOne_slug_snoc st doc s :
  ¬ slugTaken st s → slug doc = Some s → findOne_slug s (st ++ [doc]) = Some doc.
Proof.
  intros Hfree Hs. unfold findOne_slug. rewrite filter_app.
  apply findOne_slug_None in Hfree. unfold findOne_slug in Hfree.
  apply head_None in Hfree. rewrite Hfree. simpl.
  rewrite filter_cons, decide_True by done. done.
Qed.

Lemma NoDup_fmap_snoc {A B} (f : A → B) (l : list A) (x : A) :
  NoDup (f <$> l) → (∀ y, y ∈ l → f y ≠ f x) → NoDup (f <$> l ++ [x]).
Proof.
  intros Hnd Hx. rewrite fmap_app. apply NoDup_app. split; [done|]. split.
  - intros z (y & -> & Hy)%list_elem_of_fmap Hz.
    apply list_elem_of_singleton in Hz. by apply (Hx y).
  - apply NoDup_singleton.
Qed.

Lemma forallb_imap {A B} (p : A → bool) (q : B → bool) (f : nat → A → B) l :
  (∀ k x, q (f k x) = p x) → forallb q (imap f l) = forallb p l.
Proof.
  revert f. induction l as [|x l IH]; intros f Hf; [done|].
  simpl. rewrite Hf, IH; [done|]. intros k y. apply Hf.
Qed.

(** Casting changes nothing the validators look at. *)
Lemma castImages_valid owner imgs :
  forallb validImage (castImages owner imgs) = forallb validImage imgs.
Proof.
  apply forallb_imap. intros k img. unfold castImage.
  by destruct (truthy (img_id img)).
Qed.

Section CreationProperties.

Variable createSlug : string → string.

(** The body [createCategory] hands to the model and the images in it. *)
Lemma createCategory_run fuel req w :
  let imgs := if hasFiles req then Some (imagesFromFiles req)
              else b_images (body req) in
  let b := mkBody (b_name (body req)) (b_slug (body req)) (b_type (body req))
             (b_parent (body req)) imgs (b_altText (body req)) (Some (user req)) in
  createCategory createSlug fuel req w
  = (answer (λ c, Response 201 "Category created successfully" (p_category (Some c)))
       (fst (create createSlug fuel b w)),
     snd (create createSlug fuel b w)).
Proof.
  intros imgs b. unfold createCategory. rewrite catchAsync_answer.
  unfold b, imgs. by destruct (hasFiles req).
Qed.

Lemma createSubCategory_run fuel req w :
  let imgs := if hasFiles req then Some (imagesFromFiles req)
              else b_images (body req) in
  let b := mkBody (b_name (body req)) (b_slug (body req)) (b_type (body req))
             (Some (Some (params_parentId req))) imgs (b_altText (body req))
             (Some (user req)) in
  createSubCategory createSlug fuel req w
  = (answer (λ c, Response 201 "Subcategory created successfully"
                    (p_subCategory (Some c)))
       (fst (create createSlug fuel b w)),
     snd (create createSlug fuel b w)).
Proof.
  intros imgs b. unfold createSubCategory. rewrite catchAsync_answer.
  unfold b, imgs. by destruct (hasFiles req).
Qed.

(** X3. Creating a category.  With fuel beyond the size of the store, a
    request whose name is not blank and not the name of a stored document,
    whose type (or the default) is one of the schema's and whose images are
    valid is answered 201, and the store gains one document at its end: the
    name trimmed, a free slug, the images of the upload when there is one
    and of the body otherwise, each stored with an identifier, the creator
    forced to the acting user whatever the body says, and the parent taken
    from the body as it is. *)
Theorem createCategory_accepts fuel req w n :
  length (categories w) < fuel →
  b_name (body req) = Some n → trim n ≠ "" →
  default "normal" (b_type (body req)) ∈ categoryTypes →
  let imgs := if hasFiles req then imagesFromFiles req
              else default [] (b_images (body req)) in
  forallb validImage imgs = true →
  (∀ d, d ∈ categories w → name d ≠ trim n) →
  ∃ doc s,
    fst (createCategory createSlug fuel req w)
    = Returned (Response 201 "Category created successfully" (p_category (Some doc)))
    ∧ categories (snd (createCategory createSlug fuel req w)) = categories w ++ [doc]
    ∧ doc = mkCategory (freshId (categories w)) (trim n) (Some s)
              (default "normal" (b_type (body req)))
              (default None (b_parent (body req)))
              (castImages (freshId (categories w)) imgs) (user req)
    ∧ ¬ slugTaken (categories w) s
    ∧ (∀ d, d ∈ categories w → _id d ≠ _id doc).
Proof.
  intros Hfuel Hname Htrim Htype imgs Himgs Hnew.
  rewrite createCategory_run. simpl.
  set (b := mkBody _ _ _ _ _ _ _).
  set (this := mkCategory (freshId (categories w)) (trim n) (b_slug (body req))
                 (default "normal" (b_type (body req)))
                 (default None (b_parent (body req)))
                 (castImages (freshId (categories w)) imgs) (user req)).
  assert (newDocument (freshId (categories w)) b = Some this) as Hdoc.
  { unfold newDocument, b, this, imgs. simpl. rewrite Hname. simpl.
    by destruct (hasFiles req). }
  assert (validate this = true) as Hvalid.
  { unfold validate, this. simpl. rewrite castImages_valid, Himgs.
    by rewrite !bool_decide_eq_true_2. }
  destruct (create_accepts createSlug fuel b w this Hfuel Hdoc Hvalid Hnew)
    as (s & Hfst & Hsnd & Hfree).
  exists (withSlug this s), s. rewrite Hfst, Hsnd. simpl.
  do 4 (split; [done|]). intros d Hd. by apply freshId_fresh.
Qed.

(** X4. Creating a subcategory.  Under the same conditions the subcategory
    handler answers 201 and stores a document whose parent is the identifier
    of the path and whose creator is the acting user, whatever parent and
    creator the body carries; nothing is asked of the path identifier, which
    need not be that of a stored document. *)
Theorem createSubCategory_forces_parent fuel req w n :
  length (categories w) < fuel →
  b_name (body req) = Some n → trim n ≠ "" →
  default "normal" (b_type (body req)) ∈ categoryTypes →
  let imgs := if hasFiles req then imagesFromFiles req
              else default [] (b_images (body req)) in
  forallb validImage imgs = true →
  (∀ d, d ∈ categories w → name d ≠ trim n) →
  ∃ doc s,
    fst (createSubCategory createSlug fuel req w)
    = Returned (Response 201 "Subcategory created successfully"
                         (p_subCategory (Some doc)))
    ∧ categories (snd (createSubCategory createSlug fuel req w))
      = categories w ++ [doc]
    ∧ doc = mkCategory (freshId (categories w)) (trim n) (Some s)
              (default "normal" (b_type (body req)))
              (Some (params_parentId req))
              (castImages (freshId (categories w)) imgs) (user req)
    ∧ ¬ slugTaken (categories w) s.
Proof.
  intros Hfuel Hname Htrim Htype imgs Himgs Hnew.
  rewrite createSubCategory_run. simpl.
  set (b := mkBody _ _ _ _ _ _ _).
  set (this := mkCategory (freshId (categories w)) (trim n) (b_slug (body req))
                 (default "normal" (b_type (body req)))
                 (Some (params_parentId req))
                 (castImages (freshId (categories w)) imgs) (user req)).
  assert (newDocument (freshId (categories w)) b = Some this) as Hdoc.
  { unfold newDocument, b, this, imgs. simpl. rewrite Hname. simpl.
    by destruct (hasFiles req). }
  assert (validate this = true) as Hvalid.
  { unfold validate, this. simpl. rewrite castImages_valid, Himgs.
    by rewrite !bool_decide_eq_true_2. }
  destruct (create_accepts createSlug fuel b w this Hfuel Hdoc Hvalid Hnew)
    as (s & Hfst & Hsnd & Hfree).
  exists (withSlug this s), s. rewrite Hfst, Hsnd. done.
Qed.

(** X5. Rejected creations.  With fuel beyond the size of the store a
    creation always gets an answer.  A missing or blank name is a validation
    error.  A duplicate-key rejection means that a stored document has the
    same name: the slug the hook assigns never collides.  A rejected
    creation leaves the store as it was and, like an accepted one, issues no
    call but the one to the model. *)
Theorem createCategory_rejections fuel req w :
  length (categories w) < fuel →
  fst (createCategory createSlug fuel req w) ≠ OutOfFuel
  ∧ (from_option trim "" (b_name (body req)) = "" →
     fst (createCategory createSlug fuel req w) = Returned (NextThrown ValidationError))
  ∧ (fst (createCategory createSlug fuel req w) = Returned (NextThrown DuplicateKey) →
     ∃ n d, b_name (body req) = Some n ∧ d ∈ categories w ∧ name d = trim n)
  ∧ (∀ e, fst (createCategory createSlug fuel req w) = Returned (NextThrown e) →
     categories (snd (createCategory createSlug fuel req w)) = categories w)
  ∧ ∃ b, calls (snd (createCategory createSlug fuel req w))
         = calls w ++ [Category_create b].
Proof.
  intros Hfuel. rewrite createCategory_run. simpl.
  set (b := mkBody _ _ _ _ _ _ _).
  destruct (create_cases createSlug fuel b w)
    as [(Hr & Hst & Hwhy)|[(Hr & Hst & this & Hnew & Hpre)
       |[(Hr & Hst & this & doc & Hnew & Hvalid & Hpre & Hdup)
        |(this & doc & Hr & Hst & Hnew & Hvalid & Hpre & Hdup)]]];
    rewrite Hr; simpl.
  - split; [done|]. split; [done|]. split; [done|]. split; [done|].
    eexists. apply create_world.
  - destruct (preSave_total createSlug fuel (categories w) this Hfuel) as (s & Hs & _).
    congruence.
  - split; [done|]. split; [|split; [|split; [done|eexists; apply create_world]]].
    + intros Hblank. exfalso.
      apply newDocument_inv in Hnew as (n & u & Hn & _ & ->).
      simpl in Hn. rewrite Hn in Hblank. simpl in Hblank.
      unfold validate in Hvalid. simpl in Hvalid. rewrite Hblank in Hvalid. done.
    + intros _. apply newDocument_inv in Hnew as (n & u & Hn & _ & ->).
      apply preSave_inv in Hpre as (s & -> & Hfree).
      apply duplicateKey_true in Hdup as (d & Hd & [Hdn|Hds]).
      * exists n, d. done.
      * exfalso. apply Hfree. by exists d.
  - split; [done|]. split; [|split; [done|split; [done|eexists; apply create_world]]].
    intros Hblank. exfalso.
    apply newDocument_inv in Hnew as (n & u & Hn & _ & ->).
    simpl in Hn. rewrite Hn in Hblank. simpl in Hblank.
    unfold validate in Hvalid. simpl in Hvalid. rewrite Hblank in Hvalid. done.
Qed.

End CreationProperties.

Lemma deleteSubCategory_run req w category :
  findById (params_id req) (categories w) = Some category →
  deleteSubCategory req w
  = (Returned (Response 204 "Subcategory deleted successfully" p_null),
     mkWorld (deleteFirst (params_id req) (categories w)) (users w)
       (calls w ++ (cloudinary_destroy <$> assetIds (images category))
                ++ [Category_findByIdAndDelete (params_id req)])).
Proof.
  intros Hfind.
  unfold deleteSubCategory, catchAsync, reads, mbind, mret, Async_bind, Async_ret.
  rewrite Hfind. simpl. rewrite destroyImages_run.
  unfold findByIdAndDelete, record, reads, writes, mbind, Async_bind. simpl.
  by rewrite <-app_assoc.
Qed.

(** ** More on updates *)

(** The body an update handler hands to the model, and the media-store
    deletions it issues first. *)
Lemma updateCategory_run req w old :
  findById (params_id req) (categories w) = Some old →
  let b := if hasFiles req then set_images (body req) (imagesFromFiles req)
           else body req in
  let new := applyUpdate b old in
  let calls' := calls w
                ++ (if hasFiles req then cloudinary_destroy <$> assetIds (images old)
                    else [])
                ++ [Category_findByIdAndUpdate (params_id req) b] in
  updateCategory req w
  = if validateUpdate b then
      if duplicateKeyUpdate b new (categories w)
      then (Returned (NextThrown DuplicateKey),
            mkWorld (categories w) (users w) calls')
      else (Returned (Response 200 "Category updated successfully"
                               (p_category (Some new))),
            mkWorld (replaceFirst (params_id req) new (categories w)) (users w) calls')
    else (Returned (NextThrown ValidationError),
          mkWorld (categories w) (users w) calls').
Proof.
  intros Hfind b new calls'.
  unfold updateCategory, catchAsync, reads, mbind, mret, Async_bind, Async_ret.
  rewrite Hfind. unfold calls', new, b. destruct (hasFiles req); simpl.
  - rewrite destroyImages_run.
    unfold findByIdAndUpdate, record, reads, writes, reject, mbind, mret,
      Async_bind, Async_ret. simpl. rewrite Hfind, <-app_assoc.
    destruct (validateUpdate _); [|done]. by destruct (duplicateKeyUpdate _ _ _).
  - unfold findByIdAndUpdate, record, reads, writes, reject, mbind, mret,
      Async_bind, Async_ret. simpl. rewrite Hfind.
    destruct (validateUpdate _); [|done]. by destruct (duplicateKeyUpdate _ _ _).
Qed.

Lemma updateSubCategory_run req w old :
  findById (params_id req) (categories w) = Some old →
  let b := if hasFiles req then set_images (body req) (imagesFromFiles req)
           else body req in
  let new := applyUpdate b old in
  let calls' := calls w
                ++ (if hasFiles req then cloudinary_destroy <$> assetIds (images old)
                    else [])
                ++ [Category_findByIdAndUpdate (params_id req) b] in
  updateSubCategory req w
  = if validateUpdate b then
      if duplicateKeyUpdate b new (categories w)
      then (Returned (NextThrown DuplicateKey),
            mkWorld (categories w) (users w) calls')
      else (Returned (Response 200 "Subcategory updated successfully"
                               (p_subCategory (Some new))),
            mkWorld (replaceFirst (params_id req) new (categories w)) (users w) calls')
    else (Returned (NextThrown ValidationError),
          mkWorld (categories w) (users w) calls').
Proof.
  intros Hfind b new calls'.
  unfold updateSubCategory, catchAsync, reads, mbind, mret, Async_bind, Async_ret.
  rewrite Hfind. unfold calls', new, b. destruct (hasFiles req); simpl.
  - rewrite destroyImages_run.
    unfold findByIdAndUpdate, record, reads, writes, reject, mbind, mret,
      Async_bind, Async_ret. simpl. rewrite Hfind, <-app_assoc.
    destruct (validateUpdate _); [|done]. by destruct (duplicateKeyUpdate _ _ _).
  - unfold findByIdAndUpdate, record, reads, writes, reject, mbind, mret,
      Async_bind, Async_ret. simpl. rewrite Hfind.
    destruct (validateUpdate _); [|done]. by destruct (duplicateKeyUpdate _ _ _).
Qed.

Lemma updateCategory_missing req w :
  findById (params_id req) (categories w) = None →
  snd (updateCategory req w) = w ∧ snd (updateSubCategory req w) = w
  ∧ snd (deleteCategory req w) = w ∧ snd (deleteSubCategory req w) = w.
Proof.
  intros Hnone.
  unfold updateCategory, updateSubCategory, deleteCategory, deleteSubCategory,
    catchAsync, reads, mbind, mret, Async_bind, Async_ret.
  by rewrite Hnone.
Qed.

Lemma replaceFirst_ids id new st :
  _id new = id →
  _id <$> replaceFirst id new st = _id <$> st
  ∧ filter (λ d, _id d ≠ id) (replaceFirst id new st) = filter (λ d, _id d ≠ id) st.
Proof.
  intros Hnew. induction st as [|c st [IH1 IH2]]; [done|]. simpl.
  destruct (decide (_id c = id)) as [Hc|Hc].
  - split; [by rewrite !fmap_cons, Hnew, Hc|].
    rewrite !filter_cons, !decide_False; [done|by intros []..].
  - split; [by rewrite !fmap_cons, IH1|].
    by rewrite !filter_cons, IH2.
Qed.

(** X6. An update without uploaded files issues no media-store call: its
    only call is the persistence write, with the request body as it came.
    When that write is accepted the stored images are the old ones if the
    body has none, and otherwise those of the body, each stored with an
    identifier (its own when it carries one). *)
Theorem update_without_files req w old :
  findById (params_id req) (categories w) = Some old →
  hasFiles req = false →
  calls (snd (updateCategory req w))
  = calls w ++ [Category_findByIdAndUpdate (params_id req) (body req)]
  ∧ (∀ new, fst (updateCategory req w)
            = Returned (Response 200 "Category updated successfully"
                                 (p_category (Some new))) →
       images new
       = from_option (castImages (params_id req)) (images old) (b_images (body req))
       ∧ findById (params_id req) (categories (snd (updateCategory req w)))
         = Some new).
Proof.
  intros Hfind Hfiles. rewrite (updateCategory_run _ _ _ Hfind), Hfiles.
  destruct (validateUpdate _); [destruct (duplicateKeyUpdate _ _ _)|]; simpl;
    (split; [done|]); intros new [= <-].
  pose proof (findById_Some _ _ _ Hfind) as [_ Hid].
  split; [by rewrite <-Hid|]. by eapply findById_replaceFirst.
Qed.

(** X7. When an update with uploaded files is rejected by the validators or
    by a unique index, the answer is that rejection and the store is as it
    was, yet the deletions of the old images have been issued: the calls
    are those deletions followed by the rejected write. *)
Theorem update_rejected_after_deletions req w old fs :
  findById (params_id req) (categories w) = Some old →
  files req = Some fs → fs ≠ [] →
  let b := set_images (body req) (imagesFromFiles req) in
  validateUpdate b = false
  ∨ duplicateKeyUpdate b (applyUpdate b old) (categories w) = true →
  (∃ e, fst (updateCategory req w) = Returned (NextThrown e))
  ∧ categories (snd (updateCategory req w)) = categories w
  ∧ calls (snd (updateCategory req w))
    = calls w ++ (cloudinary_destroy <$> assetIds (images old))
              ++ [Category_findByIdAndUpdate (params_id req) b].
Proof.
  intros Hfind Hfiles Hne b Hrej.
  rewrite (updateCategory_run _ _ _ Hfind), (hasFiles_Some _ _ Hfiles Hne).
  fold b. destruct (validateUpdate b).
  - destruct Hrej as [?|Hdup]; [done|]. rewrite Hdup. simpl. eauto.
  - simpl. eauto.
Qed.

(** X8. An update never adds, removes or reorders documents: whatever the
    request and its outcome, the identifiers in the store are the same
    sequence afterwards, and every document with another identifier than
    the addressed one is untouched. *)
Theorem update_touches_only_addressed req w :
  let w' := snd (updateCategory req w) in
  _id <$> categories w' = _id <$> categories w
  ∧ filter (λ d, _id d ≠ params_id req) (categories w')
    = filter (λ d, _id d ≠ params_id req) (categories w)
  ∧ users w' = users w.
Proof.
  intros w'. unfold w'.
  destruct (findById (params_id req) (categories w)) as [old|] eqn:Hfind.
  - rewrite (updateCategory_run _ _ _ Hfind).
    destruct (validateUpdate _); [destruct (duplicateKeyUpdate _ _ _)|]; simpl;
      try done.
    apply findById_Some in Hfind as [_ Hid].
    destruct (replaceFirst_ids (params_id req)
                (applyUpdate (if hasFiles req
                              then set_images (body req) (imagesFromFiles req)
                              else body req) old) (categories w) Hid) as [-> ->].
    done.
  - by destruct (updateCategory_missing _ _ Hfind) as (-> & _).
Qed.

(** X9. The subcategory handlers for update and delete do what the category
    handlers do, on any document: they leave the same world, and an update
    is accepted by one exactly when it is by the other, with the same
    document in the answer. *)
Theorem subcategory_handlers_coincide req w :
  snd (updateSubCategory req w) = snd (updateCategory req w)
  ∧ snd (deleteSubCategory req w) = snd (deleteCategory req w)
  ∧ (∀ c, fst (updateSubCategory req w)
          = Returned (Response 200 "Subcategory updated successfully" (p_subCategory c))
          ↔ fst (updateCategory req w)
            = Returned (Response 200 "Category updated successfully" (p_category c))).
Proof.
  destruct (findById (params_id req) (categories w)) as [old|] eqn:Hfind.
  - rewrite (updateCategory_run _ _ _ Hfind), (updateSubCategory_run _ _ _ Hfind).
    split; [|split].
    + destruct (validateUpdate _); [destruct (duplicateKeyUpdate _ _ _)|]; done.
    + by rewrite (deleteCategory_run _ _ _ Hfind), (deleteSubCategory_run _ _ _ Hfind).
    + intros c.
      destruct (validateUpdate _); [destruct (duplicateKeyUpdate _ _ _)|]; simpl;
        split; intros [=]; by subst.
  - destruct (updateCategory_missing _ _ Hfind) as (Hu & Hus & Hd & Hds).
    rewrite Hu, Hus, Hd, Hds. split; [done|]. split; [done|].
    intros c.
    unfold updateCategory, updateSubCategory, catchAsync, reads, mbind, mret,
      Async_bind, Async_ret.
    rewrite Hfind. simpl. split; intros [=].
Qed.

(** ** The unique keys of the store *)

Lemma NoDup_fmap_replace {A B} (f : A → B) (l1 l2 : list A) x y :
  NoDup (f <$> l1 ++ x :: l2) →
  f y = f x ∨ (∀ d, d ∈ l1 ++ l2 → f d ≠ f y) →
  NoDup (f <$> l1 ++ y :: l2).
Proof.
  rewrite !fmap_app, !fmap_cons. intros Hnd [->|Hnew]; [done|].
  apply NoDup_app in Hnd as (Hl1 & Hdisj & Hl2).
  apply NoDup_cons in Hl2 as [_ Hl2].
  apply NoDup_app. split; [done|]. split.
  - intros z Hz [->|Hz2]%elem_of_cons.
    + apply list_elem_of_fmap in Hz as (d & Hfd & Hd).
      apply (Hnew d); [apply elem_of_app; by left|done].
    + apply (Hdisj z Hz). by right.
  - apply NoDup_cons. split; [|done].
    intros (d & Hfd & Hd)%list_elem_of_fmap.
    apply (Hnew d); [apply elem_of_app; by right|done].
Qed.

Lemma NoDup_fmap_remove {A B} (f : A → B) (l1 l2 : list A) x :
  NoDup (f <$> l1 ++ x :: l2) → NoDup (f <$> l1 ++ l2).
Proof.
  rewrite !fmap_app, !fmap_cons. intros Hnd.
  apply NoDup_app in Hnd as (Hl1 & Hdisj & Hl2).
  apply NoDup_cons in Hl2 as [_ Hl2].
  apply NoDup_app. split; [done|]. split; [|done].
  intros z Hz Hz2. apply (Hdisj z Hz). by right.
Qed.

Lemma duplicateKeyUpdate_false_inv b new st d :
  duplicateKeyUpdate b new st = false → d ∈ st → _id d ≠ _id new →
  (is_Some (b_name b) → name d ≠ name new)
  ∧ (is_Some (b_slug b) → slug d ≠ slug new).
Proof.
  unfold duplicateKeyUpdate. intros Hdup Hd Hid.
  assert (∀ c : bool, c = true →
            (bool_decide (_id d ≠ _id new)
             && ((bool_decide (is_Some (b_name b)) && bool_decide (name d = name new))
                 || (bool_decide (is_Some (b_slug b)) && bool_decide (slug d = slug new))))
            = c → False) as Hno.
  { intros c -> Hyes. apply not_true_iff_false in Hdup. apply Hdup.
    apply existsb_exists. exists d. split; [by apply list_elem_of_In|done]. }
  split; intros Hset Heq; apply (Hno true eq_refl);
    rewrite (bool_decide_eq_true_2 _ Hid), (bool_decide_eq_true_2 _ Hset),
      (bool_decide_eq_true_2 _ Heq); simpl; [done|by rewrite orb_true_r].
Qed.

Lemma replace_keeps_keys b old l1 l2 :
  uniqueKeys (l1 ++ old :: l2) →
  duplicateKeyUpdate b (applyUpdate b old) (l1 ++ old :: l2) = false →
  uniqueKeys (l1 ++ applyUpdate b old :: l2).
Proof.
  intros (Hids & Hnames & Hslugs) Hdup.
  assert (∀ d, d ∈ l1 ++ l2 → d ∈ l1 ++ old :: l2 ∧ _id d ≠ _id old) as Hother.
  { intros d Hd. split.
    - apply elem_of_app in Hd as [?|?]; apply elem_of_app; [by left|right; by right].
    - intros Heq. rewrite fmap_app, fmap_cons in Hids.
      apply NoDup_app in Hids as (_ & Hdisj & Hl2).
      apply NoDup_cons in Hl2 as [Hnot _].
      apply elem_of_app in Hd as [Hd|Hd].
      + apply (Hdisj (_id d)); [by apply list_elem_of_fmap_2|]. rewrite Heq. left.
      + apply Hnot. rewrite <-Heq. by apply list_elem_of_fmap_2. }
  split; [|split].
  - eapply NoDup_fmap_replace; [exact Hids|by left].
  - eapply NoDup_fmap_replace; [exact Hnames|].
    destruct (b_name b) as [n|] eqn:Hn; [right|left; simpl; by rewrite Hn].
    intros d Hd. destruct (Hother d Hd) as [Hin Hid].
    apply (duplicateKeyUpdate_false_inv _ _ _ _ Hdup Hin Hid). rewrite Hn. eauto.
  - eapply NoDup_fmap_replace; [exact Hslugs|].
    destruct (b_slug b) as [s|] eqn:Hs; [right|left; simpl; by rewrite Hs].
    intros d Hd. destruct (Hother d Hd) as [Hin Hid].
    apply (duplicateKeyUpdate_false_inv _ _ _ _ Hdup Hin Hid). rewrite Hs. eauto.
Qed.

(** X10. Updates and deletions keep the keys of the store unique: when no
    two stored documents share an identifier, a name or a slug, the same
    holds after any update or deletion of a category or subcategory,
    whatever its outcome. *)
Theorem updates_keep_unique_keys req w :
  uniqueKeys (categories w) →
  uniqueKeys (categories (snd (updateCategory req w)))
  ∧ uniqueKeys (categories (snd (updateSubCategory req w)))
  ∧ uniqueKeys (categories (snd (deleteCategory req w)))
  ∧ uniqueKeys (categories (snd (deleteSubCategory req w))).
Proof.
  intros Hkeys.
  destruct (findById (params_id req) (categories w)) as [old|] eqn:Hfind.
  - set (b := if hasFiles req then set_images (body req) (imagesFromFiles req)
              else body req).
    destruct (findById_split _ _ _ (applyUpdate b old) Hfind)
      as (l1 & l2 & Hst & _ & _ & Hrep & Hdel).
    rewrite (updateCategory_run _ _ _ Hfind), (updateSubCategory_run _ _ _ Hfind),
      (deleteCategory_run _ _ _ Hfind), (deleteSubCategory_run _ _ _ Hfind).
    fold b. simpl. rewrite Hdel.
    assert (uniqueKeys (l1 ++ l2)) as Hdeleted.
    { rewrite Hst in Hkeys. destruct Hkeys as (? & ? & ?).
      split; [|split]; by eapply NoDup_fmap_remove. }
    destruct (validateUpdate b); [|done].
    destruct (duplicateKeyUpdate b _ _) eqn:Hdup; [done|]. simpl.
    rewrite Hrep. rewrite Hst in Hkeys, Hdup.
    pose proof (replace_keeps_keys _ _ _ _ Hkeys Hdup). done.
  - destruct (updateCategory_missing _ _ Hfind) as (-> & -> & -> & ->). done.
Qed.

Section CreationKeys.

Variable createSlug : string → string.

Lemma create_keeps_keys fuel b w :
  uniqueKeys (categories w) →
  uniqueKeys (categories (snd (create createSlug fuel b w))).
Proof.
  intros Hkeys.
  destruct (create_cases createSlug fuel b w)
    as [(_ & -> & _)|[(_ & -> & _)|[(_ & -> & _)
       |(this & doc & _ & -> & Hnew & _ & Hpre & Hdup)]]]; try done.
  apply newDocument_inv in Hnew as (n & u & _ & _ & ->).
  apply preSave_inv in Hpre as (s & -> & _).
  destruct Hkeys as (Hids & Hnames & Hslugs).
  split; [|split]; apply NoDup_fmap_snoc; try done.
  - intros d Hd. by apply freshId_fresh.
  - intros d Hd. by apply (duplicateKey_false_inv _ _ _ Hdup Hd).
  - intros d Hd. by apply (duplicateKey_false_inv _ _ _ Hdup Hd).
Qed.

(** X11. Creations keep the keys of the store unique: when no two stored
    documents share an identifier, a name or a slug, the same holds after
    creating a category or a subcategory, accepted or not. *)
Theorem creations_keep_unique_keys fuel req w :
  uniqueKeys (categories w) →
  uniqueKeys (categories (snd (createCategory createSlug fuel req w)))
  ∧ uniqueKeys (categories (snd (createSubCategory createSlug fuel req w))).
Proof.
  intros Hkeys. rewrite createCategory_run, createSubCategory_run. simpl.
  split; by apply create_keeps_keys.
Qed.

(** X12. A created category can be fetched by its slug.  After a creation
    answered 201, the slug of the new document finds that document, and on
    an acyclic store fetching by that slug answers 200 with the document at
    the root, its creator populated. *)
Theorem created_category_is_fetched fuel req w doc :
  fst (createCategory createSlug fuel req w)
  = Returned (Response 201 "Category created successfully" (p_category (Some doc))) →
  let w' := snd (createCategory createSlug fuel req w) in
  acyclic (categories w') →
  ∃ s t,
    slug doc = Some s
    ∧ findOne_slug s (categories w') = Some doc
    ∧ n_doc t = doc
    ∧ n_createdBy t = findUser (user req) (users w)
    ∧ ∀ fuel', S (S (length (categories w'))) ≤ fuel' →
        getCategory fuel' (set_params_slug req s) w'
        = (Returned (Response 200 "Category fetched successfully with nested children"
                              (p_category_tree t)), w').
Proof.
  rewrite createCategory_run. simpl. set (b := mkBody _ _ _ _ _ _ _).
  intros Hdone Hacyc.
  destruct (create_cases createSlug fuel b w)
    as [(Hr & _)|[(Hr & _)|[(Hr & _)
       |(this & d & Hr & Hst & Hnew & _ & Hpre & _)]]];
    rewrite Hr in Hdone; try done.
  simpl in Hdone. injection Hdone as ->.
  apply newDocument_inv in Hnew as (n & u & _ & Hu & ->).
  apply preSave_inv in Hpre as (s & -> & Hfree).
  simpl in Hu. injection Hu as <-.
  set (doc := withSlug _ s) in *.
  set (w' := snd (create createSlug fuel b w)) in *.
  assert (users w' = users w) as Hus by apply create_world.
  assert (findOne_slug s (categories w') = Some doc) as Hfind
    by (rewrite Hst; by apply findOne_slug_snoc).
  destruct (populate_terminates (categories w') (users w')
              (populateCreatedBy (users w') doc) Hacyc) as [t Ht].
  exists s, t. split; [done|]. split; [done|].
  pose proof (populate_inv _ _ _ _ _ Ht) as (? & ? & _ & Hshape & _).
  split; [by rewrite Hshape|]. split; [by rewrite Hshape, Hus|].
  intros fuel' Hfuel'.
  unfold getCategory, catchAsync, reads, awaitPopulate, successResponse,
    mbind, mret, Async_bind, Async_ret. simpl.
  rewrite Hfind. simpl.
  by rewrite (populate_fuel_mono _ _ _ _ _ _ Hfuel' Ht).
Qed.

End CreationKeys.

(** ** Listing the whole tree, and losing acyclicity *)

Lemma awaitAll_populate fuel nodes w :
  awaitAll (awaitPopulate fuel) nodes w
  = match mapM (populateChildrenRecursively fuel (categories w) (users w)) nodes with
    | Some trees => (Returned trees, w)
    | None => (OutOfFuel, w)
    end.
Proof.
  induction nodes as [|n nodes IH]; [done|].
  cbn [awaitAll]. unfold mbind at 1, Async_bind at 1.
  unfold awaitPopulate at 1. simpl (mapM _ (n :: nodes)).
  destruct (populateChildrenRecursively fuel _ _ n) as [t|]; [|done]. simpl.
  unfold mbind at 1, Async_bind at 1. rewrite IH.
  by destruct (mapM _ nodes).
Qed.

Lemma find_top_level q st :
  find (mkFilter (Some None) (if truthy (q_type q) then q_type q else None)) st
  = filter (topLevel q) st.
Proof.
  unfold find. apply list_filter_iff. intros c. unfold matches, topLevel. simpl.
  rewrite andb_true_iff, bool_decide_eq_true.
  destruct (truthy (q_type q)) eqn:Ht.
  - destruct (q_type q) as [t|]; [|done]. simpl. rewrite bool_decide_eq_true.
    split; [intros [? ->]; done|]. intros [? Heq]. split; [done|].
    by specialize (Heq eq_refl) as [= ->].
  - simpl. split; [intros [? _]; done|]. intros [? _]. done.
Qed.

(** X13. Listing all categories.  On a store with distinct identifiers and
    an acyclic parent/child relation the listing answers 200 and leaves the
    world as it was; its trees are rooted at exactly the stored documents
    without a parent (and of the type of the query, when it names one), in
    store order, every root has its creator populated, and the documents
    nested below a root are exactly its stored descendants, each once. *)
Theorem getAllCategories_expands_top_level req w :
  NoDup (_id <$> categories w) →
  acyclic (categories w) →
  ∃ trees,
    (∀ fuel, S (S (length (categories w))) ≤ fuel →
       getAllCategories fuel req w
       = (Returned (Response 200 "Categories fetched successfully with nested children"
                             (p_categories trees)), w))
    ∧ n_doc <$> trees = filter (topLevel (query req)) (categories w)
    ∧ Forall (λ t, n_createdBy t = findUser (createdBy (n_doc t)) (users w)
                   ∧ NoDup (n_doc <$> nested t)
                   ∧ ∀ x, x ∈ n_doc <$> nested t
                          ↔ descendantOf (categories w) (n_doc t) x)
             trees.
Proof.
  intros Hnd Hacyc.
  set (st := categories w). set (us := users w).
  set (roots := filter (topLevel (query req)) st).
  assert (is_Some (mapM (populateChildrenRecursively (S (S (length st))) st us)
                     (populateCreatedBy us <$> roots))) as [trees Htrees].
  { apply mapM_is_Some_2, Forall_forall. intros n _. unfold compose.
    by apply populate_terminates. }
  apply mapM_Some_1, Forall2_fmap_l in Htrees.
  exists trees. split; [|split].
  - intros fuel Hfuel.
    unfold getAllCategories, catchAsync, reads, successResponse.
    unfold mbind at 1, Async_bind at 1. rewrite find_top_level. fold st us roots.
    unfold mbind at 1, Async_bind at 1. rewrite awaitAll_populate. fold st us.
    erewrite (mapM_Some_2 _ _ trees); [done|].
    apply Forall2_fmap_l. eapply Forall2_impl; [exact Htrees|].
    intros c t Ht. cbv beta in *. by eapply populate_fuel_mono.
  - clear -Htrees. induction Htrees as [|c t cs ts Ht _ IH]; [done|].
    rewrite fmap_cons, IH. f_equal.
    cbv beta in Ht. by apply populate_inv in Ht as (? & ? & _ & -> & _).
  - clear -Htrees Hnd Hacyc. induction Htrees as [|c t cs ts Ht _ IH]; [done|].
    apply Forall_cons. split; [|done]. cbv beta in Ht.
    pose proof (populate_NoDup st us _ _ _ Hnd Hacyc Ht) as Hnodup.
    pose proof (populate_sound st us _ _ _ Ht) as Hsound.
    pose proof (populate_complete st us _ _ _ Hnd Ht) as Hcomplete.
    apply populate_inv in Ht as (? & ks & _ & -> & _). simpl in *.
    split; [done|]. split; [done|]. intros y. split; [apply Hsound|apply Hcomplete].
Qed.

(** X14. An update may break acyclicity, and nothing stops it: setting the
    parent of a stored document to its own identifier is accepted like any
    other update, the store is then cyclic, and fetching that document by
    its slug gets no answer, whatever the fuel. *)
Theorem update_to_own_parent_loops req w old :
  findById (params_id req) (categories w) = Some old →
  hasFiles req = false →
  b_parent (body req) = Some (Some (params_id req)) →
  validateUpdate (body req) = true →
  duplicateKeyUpdate (body req) (applyUpdate (body req) old) (categories w) = false →
  let new := applyUpdate (body req) old in
  let w' := snd (updateCategory req w) in
  fst (updateCategory req w)
  = Returned (Response 200 "Category updated successfully" (p_category (Some new)))
  ∧ ¬ acyclic (categories w')
  ∧ ∀ fuel req',
      findOne_slug (params_slug req') (categories w') = Some new →
      getCategory fuel req' w' = (OutOfFuel, w').
Proof.
  intros Hfind Hfiles Hparent Hvalid Hdup new w'.
  assert (updateCategory req w
          = (Returned (Response 200 "Category updated successfully"
                                (p_category (Some new))),
             mkWorld (replaceFirst (params_id req) new (categories w)) (users w)
               (calls w ++ [Category_findByIdAndUpdate (params_id req) (body req)])))
    as Hrun.
  { rewrite (updateCategory_run _ _ _ Hfind), Hfiles. cbv iota.
    rewrite Hvalid, Hdup. done. }
  pose proof (findById_Some _ _ _ Hfind) as [_ Hid].
  assert (new ∈ categories w' ∧ parent new = Some (_id new)) as [Hin Hself].
  { split.
    - unfold w'. rewrite Hrun. simpl.
      assert (findById (params_id req)
                (replaceFirst (params_id req) new (categories w)) = Some new) as Hnew
        by (by eapply findById_replaceFirst).
      by apply findById_Some in Hnew as [? _].
    - unfold new. simpl. by rewrite Hparent, Hid. }
  split; [by rewrite Hrun|]. split.
  - intros Hacyc. apply (Hacyc (_id new)). apply tc_once. by exists new.
  - intros fuel req' Hslug.
    unfold getCategory, catchAsync, reads, awaitPopulate, mbind, mret,
      Async_bind, Async_ret.
    rewrite Hslug. simpl.
    by rewrite (populate_self_parent (categories w') (users w') new Hin Hself).
Qed.

(** ** Further concrete runs *)

Lemma catalogue_keys : uniqueKeys (categories catalogue).
Proof.
  split; [|split]; apply (bool_decide_unpack _); by vm_compute.
Qed.

Lemma catalogue_names n :
  n ∉ name <$> categories catalogue → ∀ d, d ∈ categories catalogue → name d ≠ n.
Proof. intros Hn d Hd <-. apply Hn. by apply list_elem_of_fmap_2. Qed.

(** X1, at the catalogue: deleting document 1. *)
Lemma delete_existing_witness :
  findById (params_id plainRequest) (categories catalogue) = Some shoes
  ∧ deleteCategory plainRequest catalogue
    = (Returned (Response 204 "Category deleted successfully" p_null),
       mkWorld [boots; laces] [ann]
         [cloudinary_destroy "shoes-banner"; Category_findByIdAndDelete 1]).
Proof.
  split; [reflexivity|].
  destruct (delete_existing plainRequest catalogue shoes eq_refl)
    as (l1 & l2 & Hst & Hrun & _).
  rewrite Hrun. f_equal. f_equal.
  destruct l1 as [|c l1]; simpl in Hst.
  - by injection Hst as <-.
  - injection Hst as <- Hst.
    assert (shoes ∈ l1 ++ shoes :: l2) as Hin by (apply elem_of_app; right; left).
    rewrite <-Hst in Hin.
    repeat (apply elem_of_cons in Hin as [Hin|Hin]; [discriminate|]).
    by apply not_elem_of_nil in Hin.
Defined.

(** X2, at the catalogue: document 1 is gone, its child [boots] is not. *)
Lemma delete_then_not_found_witness :
  NoDup (_id <$> categories catalogue)
  ∧ findById (params_id plainRequest) (categories catalogue) = Some shoes
  ∧ findById 1 (categories (snd (deleteCategory plainRequest catalogue))) = None
  ∧ boots ∈ categories (snd (deleteCategory plainRequest catalogue))
  ∧ parent boots = Some 1.
Proof.
  split; [exact catalogue_ids|]. split; [reflexivity|].
  destruct (delete_then_not_found plainRequest catalogue shoes catalogue_ids eq_refl)
    as (Hgone & _ & _ & Hkids).
  split; [exact Hgone|].
  apply (Hkids boots); [|discriminate].
  apply list_elem_of_filter. split; [reflexivity|]. right. left.
Defined.

(** X3, at the catalogue: creating [Sandals] as a child of document 1, with
    a creator of the client's choosing in the body. *)
Lemma createCategory_accepts_witness :
  let req := mkRequest 0 "" 0
               (mkBody (Some " Sandals ") None None (Some (Some 1)) None None (Some 99))
               None 7 noQuery in
  length (categories catalogue) < 4
  ∧ trim " Sandals " ≠ ""
  ∧ (∀ d, d ∈ categories catalogue → name d ≠ trim " Sandals ")
  ∧ ∃ doc s,
      fst (createCategory slugify 4 req catalogue)
      = Returned (Response 201 "Category created successfully" (p_category (Some doc)))
      ∧ doc = mkCategory 4 "Sandals" (Some s) "normal" (Some 1) [] 7.
Proof.
  intros req.
  assert (length (categories catalogue) < 4) as Hfuel by (simpl; lia).
  assert (trim " Sandals " ≠ "") as Htrim by (by vm_compute).
  assert (∀ d, d ∈ categories catalogue → name d ≠ trim " Sandals ") as Hnew.
  { apply catalogue_names. apply (bool_decide_unpack _). by vm_compute. }
  split; [exact Hfuel|]. split; [exact Htrim|]. split; [exact Hnew|].
  destruct (createCategory_accepts slugify 4 req catalogue " Sandals "
              Hfuel eq_refl Htrim) as (doc & s & Hrun & _ & Hdoc & _).
  - apply (bool_decide_unpack _). by vm_compute.
  - reflexivity.
  - exact Hnew.
  - exists doc, s. split; [exact Hrun|exact Hdoc].
Defined.

(** X4, at the catalogue: a subcategory under the identifier 42, which no
    document has, with the parent 1 and the creator 99 in the body. *)
Lemma createSubCategory_forces_parent_witness :
  length (categories catalogue) < 4
  ∧ b_name (body heelsRequest) = Some "Heels"
  ∧ findById 42 (categories catalogue) = None
  ∧ ∃ doc s,
      fst (createSubCategory slugify 4 heelsRequest catalogue)
      = Returned (Response 201 "Subcategory created successfully"
                           (p_subCategory (Some doc)))
      ∧ doc = mkCategory 4 "Heels" (Some s) "normal" (Some 42) [] 7.
Proof.
  assert (length (categories catalogue) < 4) as Hfuel by (simpl; lia).
  split; [exact Hfuel|]. split; [reflexivity|]. split; [reflexivity|].
  destruct (createSubCategory_forces_parent slugify 4 heelsRequest catalogue "Heels"
              Hfuel eq_refl) as (doc & s & Hrun & _ & Hdoc & _).
  - by vm_compute.
  - apply (bool_decide_unpack _). by vm_compute.
  - reflexivity.
  - apply catalogue_names. apply (bool_decide_unpack _). by vm_compute.
  - exists doc, s. split; [exact Hrun|exact Hdoc].
Defined.

(** X5, at the catalogue: creating a second [Boots]. *)
Lemma createCategory_rejections_witness :
  length (categories catalogue) < 4
  ∧ fst (createCategory slugify 4 bootsAgainRequest catalogue)
    = Returned (NextThrown DuplicateKey)
  ∧ (∃ n d, b_name (body bootsAgainRequest) = Some n
            ∧ d ∈ categories catalogue ∧ name d = trim n)
  ∧ categories (snd (createCategory slugify 4 bootsAgainRequest catalogue))
    = categories catalogue.
Proof.
  assert (length (categories catalogue) < 4) as Hfuel by (simpl; lia).
  assert (fst (createCategory slugify 4 bootsAgainRequest catalogue)
          = Returned (NextThrown DuplicateKey)) as Hrun by reflexivity.
  split; [exact Hfuel|]. split; [exact Hrun|].
  destruct (createCategory_rejections slugify 4 bootsAgainRequest catalogue Hfuel)
    as (_ & _ & Hdup & Hkept & _).
  split; [exact (Hdup Hrun)|exact (Hkept _ Hrun)].
Defined.

(** X6, at the catalogue: renaming document 1, no upload. *)
Lemma update_without_files_witness :
  findById (params_id renameRequest) (categories catalogue) = Some shoes
  ∧ hasFiles renameRequest = false
  ∧ calls (snd (updateCategory renameRequest catalogue))
    = [Category_findByIdAndUpdate 1 (body renameRequest)].
Proof.
  split; [reflexivity|]. split; [reflexivity|].
  exact (proj1 (update_without_files renameRequest catalogue shoes eq_refl eq_refl)).
Defined.

(** X7, at the catalogue: an upload under the field name [images]. *)
Lemma update_rejected_after_deletions_witness :
  findById (params_id badUploadRequest) (categories catalogue) = Some shoes
  ∧ files badUploadRequest = Some [mkFile "uploads/c.png" "images"]
  ∧ validateUpdate (set_images (body badUploadRequest)
                      (imagesFromFiles badUploadRequest)) = false
  ∧ categories (snd (updateCategory badUploadRequest catalogue)) = categories catalogue
  ∧ calls (snd (updateCategory badUploadRequest catalogue))
    = [cloudinary_destroy "shoes-banner";
       Category_findByIdAndUpdate 1
         (set_images (body badUploadRequest) (imagesFromFiles badUploadRequest))].
Proof.
  split; [reflexivity|]. split; [reflexivity|]. split; [reflexivity|].
  destruct (update_rejected_after_deletions badUploadRequest catalogue shoes
              [mkFile "uploads/c.png" "images"] eq_refl eq_refl)
    as (_ & Hkept & Hcalls); [discriminate|left; reflexivity|].
  split; [exact Hkept|exact Hcalls].
Defined.

(** X10 and X11, at the catalogue. *)
Lemma updates_keep_unique_keys_witness :
  uniqueKeys (categories catalogue)
  ∧ uniqueKeys (categories (snd (updateCategory renameRequest catalogue)))
  ∧ uniqueKeys (categories (snd (deleteCategory plainRequest catalogue))).
Proof.
  split; [exact catalogue_keys|].
  destruct (updates_keep_unique_keys renameRequest catalogue catalogue_keys)
    as (Hupdate & _).
  destruct (updates_keep_unique_keys plainRequest catalogue catalogue_keys)
    as (_ & _ & Hdelete & _).
  split; [exact Hupdate|exact Hdelete].
Defined.

Lemma creations_keep_unique_keys_witness :
  uniqueKeys (categories catalogue)
  ∧ uniqueKeys (categories (snd (createSubCategory slugify 4 heelsRequest catalogue))).
Proof.
  split; [exact catalogue_keys|].
  exact (proj2 (creations_keep_unique_keys slugify 4 heelsRequest catalogue
                  catalogue_keys)).
Defined.

(** X12, at the catalogue: creating [Sandals] and fetching it. *)
Lemma created_category_is_fetched_witness :
  let req := mkRequest 0 "" 0 (mkBody (Some "Sandals") None None None None None None)
               None 7 noQuery in
  let sandals := mkCategory 4 "Sandals" (Some "sandals") "normal" None [] 7 in
  let w' := snd (createCategory slugify 4 req catalogue) in
  fst (createCategory slugify 4 req catalogue)
  = Returned (Response 201 "Category created successfully" (p_category (Some sandals)))
  ∧ acyclic (categories w')
  ∧ ∃ s t, slug sandals = Some s
           ∧ findOne_slug s (categories w') = Some sandals
           ∧ n_doc t = sandals
           ∧ getCategory 6 (set_params_slug req s) w'
             = (Returned (Response 200
                            "Category fetched successfully with nested children"
                            (p_category_tree t)), w').
Proof.
  intros req sandals w'.
  assert (acyclic (categories w')) as Hacyc
    by (apply (acyclic_by_rank _ (λ i, i)); repeat constructor).
  split; [reflexivity|]. split; [exact Hacyc|].
  destruct (created_category_is_fetched slugify 4 req catalogue sandals eq_refl Hacyc)
    as (s & t & Hs & Hfind & Hroot & _ & Hget).
  exists s, t. split; [exact Hs|]. split; [exact Hfind|]. split; [exact Hroot|].
  apply Hget. simpl. lia.
Defined.

(** X13, at the catalogue: the one top-level category and its subtree. *)
Lemma getAllCategories_expands_top_level_witness :
  NoDup (_id <$> categories catalogue)
  ∧ acyclic (categories catalogue)
  ∧ ∃ trees,
      getAllCategories 5 plainRequest catalogue
      = (Returned (Response 200 "Categories fetched successfully with nested children"
                            (p_categories trees)), catalogue)
      ∧ n_doc <$> trees = [shoes].
Proof.
  split; [exact catalogue_ids|]. split; [exact catalogue_acyclic|].
  destruct (getAllCategories_expands_top_level plainRequest catalogue
              catalogue_ids catalogue_acyclic) as (trees & Hrun & Hroots & _).
  exists trees. split; [apply Hrun; simpl; lia|exact Hroots].
Defined.

(** X14, at the catalogue: document 2 made its own parent. *)
Lemma update_to_own_parent_loops_witness :
  findById (params_id selfParentRequest) (categories catalogue) = Some boots
  ∧ hasFiles selfParentRequest = false
  ∧ b_parent (body selfParentRequest) = Some (Some (params_id selfParentRequest))
  ∧ fst (updateCategory selfParentRequest catalogue)
    = Returned (Response 200 "Category updated successfully"
         (p_category (Some (mkCategory 2 "Boots" (Some "boots") "normal" (Some 2) [] 7))))
  ∧ ∀ fuel,
      fst (getCategory fuel selfParentRequest
             (snd (updateCategory selfParentRequest catalogue))) = OutOfFuel.
Proof.
  split; [reflexivity|]. split; [reflexivity|]. split; [reflexivity|].
  destruct (update_to_own_parent_loops selfParentRequest catalogue boots
              eq_refl eq_refl eq_refl eq_refl eq_refl) as (Hrun & _ & Hloop).
  split; [exact Hrun|].
  intros fuel. by rewrite (Hloop fuel selfParentRequest eq_refl).
Defined.

Section FlatListing.

Context {features : APIFeatures}.

(** X15. The subcategory listing is flat and always answers.  Whatever the
    query and the store, cyclic or not, it answers 200 and leaves the world
    as it was; every listed entry is a stored document with its creator
    populated and its parent populated with the stored document of that
    identifier, null when there is none; without a parent in the query the
    reported total is the size of the whole store. *)
Theorem getAllSubCategories_flat req w :
  ∃ subs pg,
    getAllSubCategories req w
    = (Returned (Response 200 "Subcategories fetched successfully"
                          (p_subCategories subs pg)), w)
    ∧ Forall (λ s, l_doc s ∈ categories w
                   ∧ l_createdBy s = findUser (createdBy (l_doc s)) (users w)
                   ∧ l_parent s = (p ← parent (l_doc s); findById p (categories w))
                   ∧ (∀ pid, q_parentId (query req) = Some pid →
                        parent (l_doc s) = Some pid))
             subs
    ∧ (q_parentId (query req) = None → pg_total pg = length (categories w)).
Proof.
  unfold getAllSubCategories, catchAsync, reads, successResponse, countDocuments,
    mbind, mret, Async_bind, Async_ret. simpl.
  eexists _, _. split; [done|]. split.
  - apply Forall_forall. intros s Hs.
    eapply elem_of_sublist in Hs; [|apply paginate_sublist].
    rewrite sort_Permutation in Hs.
    apply list_elem_of_fmap in Hs as (c & -> & Hc). simpl.
    apply list_elem_of_filter in Hc as [Hm Hc].
    split; [done|]. split; [done|]. split; [done|].
    intros pid Hpid. rewrite Hpid in Hm. unfold matches in Hm. simpl in Hm.
    rewrite andb_true_r in Hm. by apply bool_decide_eq_true in Hm.
  - intros Hnone. rewrite pagination_total, Hnone. simpl.
    unfold find. f_equal. induction (categories w) as [|c l IH]; [done|].
    rewrite filter_cons_True by done. by rewrite IH.
Qed.

End FlatListing.
